(** * evmap: the sparse keymap engine and its enumeration client

    A shallow embedding of

    - [mod_sparse-keymap-all/sparse-keymap-all.c], the replacement
      get/set handlers of a sparse keymap (index and scancode lookup,
      in-place mutation of an entry, upkeep of [dev->keybit]);
    - the option loop of [evdev_map.c] ([usage], [main]) and its
      table dump [print_keymap].

    Unsigned C integers are values of [N] with the wrap-around of every
    assignment written out; [int] values are in [Z].  Byte buffers are
    [list byte].  A pointer into the keymap array is the position of the
    entry it points to, paired with that entry. *)

From Stdlib Require Import NArith ZArith Lia.
From Stdlib Require Import Strings.Byte Strings.String Strings.Ascii.
From stdpp Require Import base list.

Open Scope N_scope.

(** ** Machine integers and their bytes *)

Definition u16 (x : N) : N := x mod 2 ^ 16.
Definition u32 (x : N) : N := x mod 2 ^ 32.

Definition byte_of_N (n : N) : byte :=
  match Byte.of_N (n mod 256) with
  | Some b => b
  | None => x00
  end.

(** The value of a byte sequence read least significant byte first, and
    the [n] low bytes of a value in that order. *)
Fixpoint le_value (bs : list byte) : N :=
  match bs with
  | [] => 0
  | b :: rest => Byte.to_N b + 256 * le_value rest
  end.

Fixpoint le_bytes (n : nat) (v : N) : list byte :=
  match n with
  | O => []
  | S m => byte_of_N v :: le_bytes m (v / 256)
  end.

(** The byte order of the machine: the engine stores and returns
    scancodes "in machine-endian form". *)
Inductive byte_order := LittleEndian | BigEndian.

(** [load_bytes o bs] is the unsigned integer whose object representation
    is [bs]; [store_bytes o n v] is the object representation of the
    [n]-byte unsigned integer [v]. *)
Definition load_bytes (o : byte_order) (bs : list byte) : N :=
  match o with
  | LittleEndian => le_value bs
  | BigEndian => le_value (reverse bs)
  end.

Definition store_bytes (o : byte_order) (n : nat) (v : N) : list byte :=
  match o with
  | LittleEndian => le_bytes n v
  | BigEndian => reverse (le_bytes n v)
  end.

(** [memcpy dst src n]: the buffer [dst] after its first [n] bytes were
    overwritten with the first [n] bytes of [src]. *)
Definition memcpy (dst src : list byte) (n : nat) : list byte :=
  take n src ++ drop n dst.

(** [set_bit], [clear_bit] and [test_bit] on a bitmap, here a natural
    number whose binary digits are the bits. *)
Definition set_bit (nr : N) (bitmap : N) : N := N.setbit bitmap nr.
Definition clear_bit (nr : N) (bitmap : N) : N := N.clearbit bitmap nr.
Definition test_bit (nr : N) (bitmap : N) : bool := N.testbit bitmap nr.

(** ** Data model *)

(** Entry types of <linux/input/sparse-keymap.h>. *)
Definition KE_END : Z := 0.
Definition KE_KEY : Z := 1.
Definition KE_SW : Z := 2.
Definition KE_VSW : Z := 3.
Definition KE_IGNORE : Z := 4.

(** [KEY_RESERVED] and [INPUT_KEYMAP_BY_INDEX] ([1 << 0]) of
    <linux/input.h>, [EINVAL] of <errno.h>. *)
Definition KEY_RESERVED : N := 0.
Definition INPUT_KEYMAP_BY_INDEX : N := 1.
Definition EINVAL : Z := 22.

(** The values of a 16-bit unsigned field: the numbers below 2^16.
    [ltb_canonical] makes the proof part of a value the same for every
    way the value was arrived at. *)
Definition ltb_canonical (a b : N) (p : N.ltb a b = true) : N.ltb a b = true :=
  match N.ltb a b as c return c = true -> c = true with
  | true => fun _ => eq_refl
  | false => fun q => q
  end p.

Record u16_value := {
  u16_to_N : N;
  u16_below : N.ltb u16_to_N (2 ^ 16) = true
}.

(** The conversion of an assignment to a 16-bit field: the value is
    reduced modulo 2^16. *)
Definition to_u16 (x : N) : u16_value.
Proof.
  refine {| u16_to_N := u16 x; u16_below := ltb_canonical _ _ _ |}.
  apply N.ltb_lt. unfold u16. apply N.mod_upper_bound. discriminate.
Defined.

(** [struct key_entry] of <linux/input/sparse-keymap.h>: [type] is an
    [int], [code] a 32-bit unsigned integer ([u32]), so that
    [sizeof(key->code)] is 4, and [keycode] a 16-bit unsigned integer
    ([u16]).  The bitmap update sets and clears bits by the value of
    [keycode], so the field holds a [u16_value]: [key_keycode] reads it,
    and every assignment to it goes through [to_u16].  The four bytes
    of [code] are read and written through [store_bytes] and
    [load_bytes] at width [sizeof_code]. *)
Record key_entry := {
  key_type : Z;
  key_code : N;
  key_keycode_field : u16_value
}.

Definition key_keycode (key : key_entry) : N :=
  u16_to_N (key_keycode_field key).

(** The entry with the given type, code and key code. *)
Definition mk_key_entry (type : Z) (code keycode : N) : key_entry :=
  {| key_type := type; key_code := code;
     key_keycode_field := to_u16 keycode |}.

Definition sizeof_code : nat := 4.

(** [struct input_keymap_entry], as evdev_map.c quotes it:
    [__u8 flags; __u8 len; __u16 index; __u32 keycode; __u8 scancode[32]]. *)
Record input_keymap_entry := {
  ke_flags : N;
  ke_len : N;
  ke_index : N;
  ke_keycode : N;
  ke_scancode : list byte
}.

(** The part of [struct input_dev] the engine touches: [keycode] is the
    keymap array ([None] for a null pointer) and [keybit] the bitmap of
    the key codes the device can emit. *)
Record input_dev := {
  dev_keycode : option (list key_entry);
  dev_keybit : N
}.

(** The entries of a keymap array: those before the [KE_END] sentinel. *)
Fixpoint keymap_entries (keys : list key_entry) : list key_entry :=
  match keys with
  | [] => []
  | key :: rest =>
      if Z.eqb (key_type key) KE_END then [] else key :: keymap_entries rest
  end.

Definition dev_entries (dev : input_dev) : list key_entry :=
  match dev_keycode dev with
  | Some keys => keymap_entries keys
  | None => []
  end.

(** ** The lookup loops

    Each loop is [for (key = dev->keycode; key->type != KE_END; key++)];
    [pos] is the position [key] points to.  A well-formed array ends
    with its sentinel; running off the list is treated as reaching it. *)

Fixpoint get_key_index_loop (keys : list key_entry) (pos k : nat) (idx : N) : N :=
  match keys with
  | [] => idx
  | key :: rest =>
      if Z.eqb (key_type key) KE_END then idx
      else if Nat.eqb pos k then idx
      else get_key_index_loop rest (S pos) k (u32 (idx + 1))
  end.

Definition sparse_keymap_get_key_index (keys : list key_entry) (k : nat) : N :=
  get_key_index_loop keys 0 k 0.

Fixpoint entry_by_index_loop (keys : list key_entry) (pos : nat)
    (key_cnt index : N) : option (nat * key_entry) :=
  match keys with
  | [] => None
  | key :: rest =>
      if Z.eqb (key_type key) KE_END then None
      else if N.eqb key_cnt index then Some (pos, key)
      else entry_by_index_loop rest (S pos) (u32 (key_cnt + 1)) index
  end.

Definition sparse_keymap_entry_by_index_all (keys : list key_entry) (index : N)
    : option (nat * key_entry) :=
  entry_by_index_loop keys 0 0 index.

Fixpoint entry_from_scancode_loop (keys : list key_entry) (pos : nat) (code : N)
    : option (nat * key_entry) :=
  match keys with
  | [] => None
  | key :: rest =>
      if Z.eqb (key_type key) KE_END then None
      else if N.eqb code (key_code key) then Some (pos, key)
      else entry_from_scancode_loop rest (S pos) code
  end.

Definition sparse_keymap_entry_from_scancode_all (keys : list key_entry) (code : N)
    : option (nat * key_entry) :=
  entry_from_scancode_loop keys 0 code.

(** [sparse_keymap_entry_from_keycode] is the kernel's own lookup; the
    module quotes its body (as [sparse_keymap_entry_from_keycode_UNUSED]). *)
Fixpoint entry_from_keycode_loop (keys : list key_entry) (pos : nat) (keycode : N)
    : option (nat * key_entry) :=
  match keys with
  | [] => None
  | key :: rest =>
      if Z.eqb (key_type key) KE_END then None
      else if Z.eqb (key_type key) KE_KEY && N.eqb keycode (key_keycode key)
      then Some (pos, key)
      else entry_from_keycode_loop rest (S pos) keycode
  end.

Definition sparse_keymap_entry_from_keycode (keys : list key_entry) (keycode : N)
    : option (nat * key_entry) :=
  entry_from_keycode_loop keys 0 keycode.

(** ** The engine: locate, get, set *)

Definition set_key_type (key : key_entry) (t : Z) : key_entry :=
  {| key_type := t; key_code := key_code key;
     key_keycode_field := key_keycode_field key |}.
Definition set_key_code (key : key_entry) (c : N) : key_entry :=
  {| key_type := key_type key; key_code := c;
     key_keycode_field := key_keycode_field key |}.
Definition set_key_keycode (key : key_entry) (k : N) : key_entry :=
  {| key_type := key_type key; key_code := key_code key;
     key_keycode_field := to_u16 k |}.

Definition set_ke_flags (ke : input_keymap_entry) (f : N) : input_keymap_entry :=
  {| ke_flags := f; ke_len := ke_len ke; ke_index := ke_index ke;
     ke_keycode := ke_keycode ke; ke_scancode := ke_scancode ke |}.
Definition set_ke_len (ke : input_keymap_entry) (l : N) : input_keymap_entry :=
  {| ke_flags := ke_flags ke; ke_len := l; ke_index := ke_index ke;
     ke_keycode := ke_keycode ke; ke_scancode := ke_scancode ke |}.
Definition set_ke_index (ke : input_keymap_entry) (i : N) : input_keymap_entry :=
  {| ke_flags := ke_flags ke; ke_len := ke_len ke; ke_index := i;
     ke_keycode := ke_keycode ke; ke_scancode := ke_scancode ke |}.
Definition set_ke_keycode (ke : input_keymap_entry) (k : N) : input_keymap_entry :=
  {| ke_flags := ke_flags ke; ke_len := ke_len ke; ke_index := ke_index ke;
     ke_keycode := k; ke_scancode := ke_scancode ke |}.
Definition set_ke_scancode (ke : input_keymap_entry) (s : list byte)
    : input_keymap_entry :=
  {| ke_flags := ke_flags ke; ke_len := ke_len ke; ke_index := ke_index ke;
     ke_keycode := ke_keycode ke; ke_scancode := s |}.

(** [ke->flags & INPUT_KEYMAP_BY_INDEX] *)
Definition by_index (ke : input_keymap_entry) : bool :=
  negb (N.eqb (N.land (ke_flags ke) INPUT_KEYMAP_BY_INDEX) 0).

Section Engine.

(** The byte order of the machine. *)
Variable order : byte_order.

(** [input_scancode_to_scalar] belongs to the input core, not to this
    module: [Some c] stands for return value 0 with [*scancode = c],
    [None] for a failure. *)
Variable input_scancode_to_scalar : input_keymap_entry -> option N.

Definition sparse_keymap_locate_all (keys : list key_entry)
    (ke : input_keymap_entry) : option (nat * key_entry) :=
  if by_index ke then sparse_keymap_entry_by_index_all keys (ke_index ke)
  else match input_scancode_to_scalar ke with
       | Some scancode => sparse_keymap_entry_from_scancode_all keys scancode
       | None => None
       end.

(** Returns the return value and [*ke] as the call leaves it. *)
Definition sparse_keymap_getkeycode_all (dev : input_dev)
    (ke : input_keymap_entry) : Z * input_keymap_entry :=
  match dev_keycode dev with
  | Some keys =>
      match sparse_keymap_locate_all keys ke with
      | Some (pos, key) =>
          let ke1 := set_ke_keycode ke (key_keycode key) in
          let ke2 :=
            if negb (by_index ke1)
            then set_ke_index ke1 (u16 (sparse_keymap_get_key_index keys pos))
            else ke1 in
          let ke3 := set_ke_len ke2 (N.of_nat sizeof_code) in
          let ke4 :=
            set_ke_scancode ke3
              (memcpy (ke_scancode ke3)
                      (store_bytes order sizeof_code (key_code key))
                      sizeof_code) in
          (0%Z, ke4)
      | None => ((- EINVAL)%Z, ke)
      end
  | None => ((- EINVAL)%Z, ke)
  end.

(** The type the entry gets: lines 213-217. *)
Definition override_type (ke : input_keymap_entry) (key : key_entry) : key_entry :=
  if N.eqb (ke_keycode ke) KEY_RESERVED then
    if Z.eqb (key_type key) KE_KEY then set_key_type key KE_IGNORE else key
  else
    if Z.eqb (key_type key) KE_IGNORE then set_key_type key KE_KEY else key.

(** [key->keycode = ke->keycode; key->code = 0;
     memcpy(&key->code, ke->scancode, ke->len);]
    The first assignment stores the 32-bit [ke->keycode] in the 16-bit
    field: the low 16 bits are kept ([set_key_keycode]). *)
Definition overwrite_entry (ke : input_keymap_entry) (key : key_entry) : key_entry :=
  let key1 := set_key_keycode key (ke_keycode ke) in
  let key2 := set_key_code key1 0 in
  set_key_code key2
    (load_bytes order
       (memcpy (store_bytes order sizeof_code (key_code key2))
               (ke_scancode ke) (N.to_nat (ke_len ke)))).

(** The update of [dev->keybit]: lines 230-240, on the keymap as the
    overwrite left it. *)
Definition update_keybit (keys : list key_entry) (old_type : Z)
    (old_keycode : N) (ke : input_keymap_entry) (key : key_entry)
    (keybit : N) : N :=
  let keybit1 :=
    if Z.eqb old_type KE_KEY then
      let b := clear_bit old_keycode keybit in
      match sparse_keymap_entry_from_keycode keys old_keycode with
      | Some _ => set_bit old_keycode b
      | None => b
      end
    else keybit in
  if Z.eqb (key_type key) KE_KEY then
    let b := set_bit (ke_keycode ke) keybit1 in
    match sparse_keymap_entry_from_keycode keys old_keycode with
    | Some _ => b
    | None => clear_bit old_keycode b
    end
  else keybit1.

(** Returns the return value, the device and [*old_keycode] as the
    call leaves them. *)
Definition sparse_keymap_setkeycode_all (dev : input_dev)
    (ke : input_keymap_entry) (old_keycode : N) : Z * input_dev * N :=
  match dev_keycode dev with
  | Some keys =>
      match sparse_keymap_locate_all keys ke with
      | Some (pos, key) =>
          if N.ltb (N.of_nat sizeof_code) (ke_len ke)
          then ((- EINVAL)%Z, dev, old_keycode)
          else
            let old_type := key_type key in
            let old_keycode' := key_keycode key in
            let key' := overwrite_entry ke (override_type ke key) in
            let keys' := <[pos := key']> keys in
            let keybit' :=
              update_keybit keys' old_type old_keycode' ke key'
                            (dev_keybit dev) in
            (0%Z, {| dev_keycode := Some keys'; dev_keybit := keybit' |},
             old_keycode')
      | None => ((- EINVAL)%Z, dev, old_keycode)
      end
  | None => ((- EINVAL)%Z, dev, old_keycode)
  end.

End Engine.

(** [input_scancode_to_scalar] as the kernel the module is loaded into
    provides it ([drivers/input/input.c]), for concrete runs of the
    engine: the scancode is read as a [u8], [u16] or [u32] according to
    [ke->len], and every other length is refused. *)
Definition linux_scancode_to_scalar (order : byte_order)
    (ke : input_keymap_entry) : option N :=
  match ke_len ke with
  | 1 => Some (load_bytes order (take 1 (ke_scancode ke)))
  | 2 => Some (load_bytes order (take 2 (ke_scancode ke)))
  | 4 => Some (load_bytes order (take 4 (ke_scancode ke)))
  | _ => None
  end.

(** The active-keycode invariant: a bit of [dev->keybit] is set exactly
    when an entry of the keymap has type [KE_KEY] and that key code. *)
Definition references (k : N) (key : key_entry) : Prop :=
  key_type key = KE_KEY /\ key_keycode key = k.


(** Number of entries of the device's keymap. *)
Definition keymap_length (dev : input_dev) : nat := length (dev_entries dev).

(** A 32-byte scancode buffer holding [bs] in its first bytes. *)
Definition scancode_buffer (bs : list byte) : list byte :=
  take 32 (bs ++ replicate 32 x00).

(** ** The enumeration client (evdev_map.c)

    A run of the client is a function of the world it talks to: it
    produces output events and either goes on with a value or leaves
    through [exit]. *)

Inductive stream := Stdout | Stderr.

(** What the client writes: a text, a [fprintf] with numeric arguments
    (the format is kept as it is), a row of the dump (the arguments of
    its [printf]), a [perror], an [fflush]. *)
Inductive event :=
| Print (out : stream) (text : string)
| Printf (out : stream) (format : string) (args : list N)
| Row (index : N) (scancode : string) (keycode : N) (name : string)
| Perror (msg : string)
| Flush (out : stream).

Inductive result (W A : Type) :=
| Running (a : A) (w : W)
| Exited (status : Z).
Arguments Running {W A} a w.
Arguments Exited {W A} status.

Definition prog (W A : Type) : Type := W -> list event * result W A.

Definition ret {W A} (a : A) : prog W A := fun w => ([], Running a w).

Definition bind {W A B} (m : prog W A) (f : A -> prog W B) : prog W B :=
  fun w =>
    match m w with
    | (o1, Running a w1) =>
        match f a w1 with
        | (o2, r) => (o1 ++ o2, r)
        end
    | (o1, Exited s) => (o1, Exited s)
    end.

Definition emit {W} (e : event) : prog W unit := fun w => ([e], Running tt w).
Definition exit {W A} (status : Z) : prog W A := fun _ => ([], Exited status).

Notation "x <- m ;; k" := (bind m (fun x => k))
  (at level 100, m at next level, right associativity).
Notation "m ;; k" := (bind m (fun _ => k))
  (at level 100, right associativity).

(** The exit status of the process when [main] ends in [r]. *)
Definition exit_status {W} (r : result W Z) : Z :=
  match r with
  | Running a _ => a
  | Exited s => s
  end.

Definition nl : string := String (ascii_of_nat 10) EmptyString.

Definition lines (ls : list string) : string :=
  String.concat EmptyString (map (fun l => String.append l nl) ls).

Definition usage_text : string :=
  lines [ "evdev_map -- manipulate evdev keycode tables";
          "Usage: evdev_map -d device [-p] [-s scancode=keycode]";
          EmptyString;
          "    -d device                  select the input device";
          "    -p                         print the current map";
          "                               columns: index scancode keycode key_name";
          "    -s [idx:]scancode=keycode  change the mapping for a scancode";
          "                               (key names work too; use 0x0 for RESERVED)";
          "    -h                         print this message";
          "Options are processed in order and can be repeated." ]%string.

Definition hex_digit (n : N) : ascii :=
  match n with
  | 0 => "0" | 1 => "1" | 2 => "2" | 3 => "3" | 4 => "4" | 5 => "5"
  | 6 => "6" | 7 => "7" | 8 => "8" | 9 => "9" | 10 => "a" | 11 => "b"
  | 12 => "c" | 13 => "d" | 14 => "e" | _ => "f"
  end%char.

(** [snprintf(out, 3, "%02x", b)] *)
Definition hex_byte (b : byte) : string :=
  String (hex_digit (Byte.to_N b / 16))
    (String (hex_digit (Byte.to_N b mod 16)) EmptyString).

(** [scancode_to_string]: [out] is the buffer as it was; with [len <= 0]
    nothing is written to it. *)
Definition scancode_to_string (order : byte_order) (out : string)
    (code : list byte) (len : nat) : string :=
  match len with
  | O => out
  | _ =>
      let bytes := take len code in
      String.concat EmptyString
        (map hex_byte
             (match order with
              | LittleEndian => reverse bytes
              | BigEndian => bytes
              end))
  end.

Record ioctl_result := {
  io_ret : Z;
  io_errno : Z;
  io_ke : input_keymap_entry
}.

(** What [getopt] hands to the loop of [main] for a command line: the
    options in order, each with its [optarg], and whether operands are
    left when it returns -1 ([optind < argc]). *)
Record command_line := {
  cl_options : list (ascii * string);
  cl_operands_left : bool
}.

Section Client.

Variable order : byte_order.
Variable W : Type.

(** The system calls, and the table of key names ([key_names.inc],
    generated at build time). *)
Variable sys_open : string -> prog W Z.
Variable sys_close : Z -> prog W unit.
Variable ioctl_EVIOCGKEYCODE_V2 : Z -> input_keymap_entry -> prog W ioctl_result.
Variable key_names : list (N * string).

(** [set_keycode] reads its argument with [sscanf] and issues one
    [EVIOCSKEYCODE_V2]; [main] only sequences it. *)
Variable set_keycode : Z -> string -> prog W unit.

Definition check_device (dev : Z) : prog W unit :=
  if (dev <? 0)%Z then
    emit (Print Stderr (String.append "No device opened" nl));;
    exit 1%Z
  else ret tt.

Fixpoint get_key_by_code_loop (names : list (N * string)) (code : N)
    : option string :=
  match names with
  | [] => None
  | (c, name) :: rest =>
      if N.eqb c code then Some name else get_key_by_code_loop rest code
  end.

Definition get_key_by_code (code : N) : option string :=
  get_key_by_code_loop key_names code.

(** The loop of [print_keymap]: [n] iterations are left before [i]
    reaches 0x10000; [ke] and [scancode] are the locals as the
    previous iteration left them. *)
Fixpoint print_keymap_loop (n : nat) (dev : Z) (i : N)
    (ke : input_keymap_entry) (scancode : string) : prog W unit :=
  match n with
  | O => ret tt
  | S m =>
      let ke1 := set_ke_index ke (u16 i) in
      let ke2 := set_ke_flags ke1 INPUT_KEYMAP_BY_INDEX in
      r <- ioctl_EVIOCGKEYCODE_V2 dev ke2;;
      if (io_ret r <? 0)%Z then
        if (io_errno r =? EINVAL)%Z then ret tt
        else emit (Perror "ioctl(EVIOCGKEYCODE_V2)");; exit 1%Z
      else
        let ke3 := io_ke r in
        if negb (N.eqb (ke_index ke3) i) then
          emit (Printf Stderr
                  (String.append "Inconsistency detected: index: %d != %d" nl)
                  [ke_index ke3; i]);;
          exit 1%Z
        else if N.ltb 32 (ke_len ke3) then
          emit (Printf Stderr
                  (String.append "Inconsistency detected: len: %d > %zd" nl)
                  [ke_len ke3; 32]);;
          exit 1%Z
        else
          let scancode' :=
            scancode_to_string order scancode (ke_scancode ke3)
                               (N.to_nat (ke_len ke3)) in
          emit (Row (ke_index ke3) scancode' (ke_keycode ke3)
                    (match get_key_by_code (ke_keycode ke3) with
                     | Some name => name
                     | None => "?"
                     end));;
          print_keymap_loop m dev (i + 1) ke3 scancode'
  end.

(** [ke0] and [scancode0] are the locals of [print_keymap] as it
    finds them. *)
Definition print_keymap (ke0 : input_keymap_entry) (scancode0 : string)
    (dev : Z) : prog W unit :=
  check_device dev;;
  emit (Print Stdout
          (String.append "index scancode    keycode name" nl));;
  print_keymap_loop (N.to_nat 0x10000) dev 0 ke0 scancode0;;
  emit (Flush Stdout).

Definition usage (r : Z) : prog W unit :=
  let out := if (r =? 0)%Z then Stdout else Stderr in
  emit (Print out usage_text);;
  emit (Flush out);;
  if (r =? 0)%Z then ret tt else exit r.

Variable ke0 : input_keymap_entry.
Variable scancode0 : string.

(** The [while ((opt = getopt(...)) >= 0) switch (opt)] loop. *)
Fixpoint main_loop (opts : list (ascii * string)) (dev : Z) (act : bool)
    : prog W (Z * bool) :=
  match opts with
  | [] => ret (dev, act)
  | (opt, optarg) :: rest =>
      if Ascii.eqb opt "d" then
        (if (0 <=? dev)%Z then sys_close dev else ret tt);;
        dev' <- sys_open optarg;;
        if (dev' <? 0)%Z then emit (Perror optarg);; exit 1%Z
        else main_loop rest dev' act
      else if Ascii.eqb opt "p" then
        print_keymap ke0 scancode0 dev;;
        main_loop rest dev true
      else if Ascii.eqb opt "s" then
        set_keycode dev optarg;;
        main_loop rest dev true
      else if Ascii.eqb opt "h" then
        usage 0%Z;;
        main_loop rest dev act
      else
        usage 1%Z;;
        main_loop rest dev act
  end.

Definition main (cl : command_line) : prog W Z :=
  st <- main_loop (cl_options cl) (-1)%Z false;;
  (if cl_operands_left cl || negb (snd st) then usage 1%Z else ret tt);;
  ret 0%Z.

End Client.

(** ** [set_keycode] and [get_key_by_name] (evdev_map.c)

    C strings are values of [string]; [def + n] is [string_drop n def]
    and [strchr] answers with the offset of the character it finds. *)

Fixpoint string_drop (n : nat) (s : string) : string :=
  match n, s with
  | O, _ => s
  | S m, EmptyString => EmptyString
  | S m, String _ rest => string_drop m rest
  end.

Fixpoint strchr (s : string) (c : ascii) : option nat :=
  match s with
  | EmptyString => None
  | String a rest =>
      if Ascii.eqb a c then Some O
      else match strchr rest c with
           | Some n => Some (S n)
           | None => None
           end
  end.

(** The first entry of the table whose name is [name]: the [strcmp] loop
    of [get_key_by_name]. *)
Fixpoint get_key_by_name_loop (names : list (N * string)) (name : string)
    : option N :=
  match names with
  | [] => None
  | (code, n) :: rest =>
      if String.eqb n name then Some code else get_key_by_name_loop rest name
  end.

Section SetKeycode.

Variable order : byte_order.
Variable W : Type.
Variable key_names : list (N * string).

(** The three calls of [sscanf], each with [off] set to 0 before it.
    [scan_index def] is [sscanf(def, "%hu:%n", &ke.index, &off)]: [None]
    when the return value is not 1, [Some (v, off)] when [v] was stored
    in [ke.index]; [off] is still 0 when no colon followed the number.
    [scan_hex s] is [sscanf(s, "%02x%n", &c, &off)] and [scan_int s] is
    [sscanf(s, "%i%n", &code, &off)]: [None] when nothing was converted
    ([off] stays 0), [Some (value, off)] otherwise. *)
Variable scan_index : string -> option (N * nat).
Variable scan_hex : string -> option (N * nat).
Variable scan_int : string -> option (N * nat).

(** [ioctl(dev, EVIOCSKEYCODE_V2, &ke)]: its return value. *)
Variable ioctl_EVIOCSKEYCODE_V2 : Z -> input_keymap_entry -> prog W Z.

(** [name[off] != 0] is read as: [off] is not the length of [name]. *)
Definition get_key_by_name (name : string) : prog W N :=
  match get_key_by_name_loop key_names name with
  | Some code => ret code
  | None =>
      let unknown : prog W N :=
        emit (Print Stderr
                (String.append "Unknown key: " (String.append name nl)));;
        exit 1%Z in
      match scan_int name with
      | Some (code, off) =>
          if Nat.eqb off 0 || negb (Nat.eqb off (String.length name))
          then unknown
          else ret (u32 code)
      | None => unknown
      end
  end.

(** Lines 294-301: the locator.  The result is [ke] and [def] as the
    [if] leaves them. *)
Definition set_keycode_locator (ke : input_keymap_entry) (def : string)
    : input_keymap_entry * string :=
  let ke1 := set_ke_flags ke 0 in
  let ke2 := set_ke_index ke1 0 in
  match scan_index def with
  | Some (v, off) =>
      let ke3 := set_ke_index ke2 (u16 v) in
      if negb (Nat.eqb off 0)
      then (set_ke_flags ke3 (N.lor (ke_flags ke3) INPUT_KEYMAP_BY_INDEX),
            string_drop off def)
      else (ke3, def)
  | None => (ke2, def)
  end.

(** The loop of lines 317-326: [n] iterations are left, [i] is the
    counter, [ic] the position the next byte goes to and [id] its
    step. *)
Fixpoint set_keycode_scancode_loop (n : nat) (def : string) (i : nat)
    (ic id : Z) (scancode : list byte) : prog W (list byte) :=
  match n with
  | O => ret scancode
  | S m =>
      match scan_hex (string_drop (i * 2) def) with
      | Some (c, 2%nat) =>
          set_keycode_scancode_loop m def (S i) (ic + id)%Z id
            (<[Z.to_nat ic := byte_of_N c]> scancode)
      | _ =>
          emit (Print Stderr
                  (String.append "Invalid scancode: " (String.append def nl)));;
          exit 1%Z
      end
  end.

(** Lines 294-327: the request [set_keycode] builds from its argument;
    [ke] holds the locals as the function finds them. *)
Definition set_keycode_request (ke : input_keymap_entry) (def : string)
    : prog W input_keymap_entry :=
  match set_keycode_locator ke def with
  | (ke1, def1) =>
      match strchr def1 "=" with
      | Some sep =>
          if Nat.ltb 64 sep || negb (Nat.eqb (sep mod 2) 0) then
            emit (Print Stderr
                    (String.append "Invalid definition: "
                                   (String.append def1 nl)));;
            exit 1%Z
          else
            let ke2 := set_ke_len ke1 (N.of_nat (sep / 2)) in
            let len := N.to_nat (ke_len ke2) in
            scancode <-
              match order with
              | LittleEndian =>
                  set_keycode_scancode_loop len def1 0 (Z.of_nat len - 1) (-1)
                                            (ke_scancode ke2)
              | BigEndian =>
                  set_keycode_scancode_loop len def1 0 0 1 (ke_scancode ke2)
              end;;
            let ke3 := set_ke_scancode ke2 scancode in
            keycode <- get_key_by_name (string_drop (S sep) def1);;
            ret (set_ke_keycode ke3 keycode)
      | None =>
          emit (Print Stderr
                  (String.append "Invalid definition: "
                                 (String.append def1 nl)));;
          exit 1%Z
      end
  end.

(** The arguments of the [fprintf] of line 329 are listed as the 32-bit
    words handed over. *)
Definition set_keycode (ke0 : input_keymap_entry) (dev : Z) (def : string)
    : prog W unit :=
  check_device W dev;;
  ke <- set_keycode_request ke0 def;;
  r <- ioctl_EVIOCSKEYCODE_V2 dev ke;;
  emit (Printf Stderr
          (String.append
             "Setting keymap[%d] with flags=%x: scancode=%08x len=%d ke.keycode=%#x returned %d"
             nl)
          [ke_index ke; ke_flags ke; load_bytes order (take 4 (ke_scancode ke));
           ke_len ke; ke_keycode ke; Z.to_N (r mod 2 ^ 32)]);;
  if (r <? 0)%Z then
    emit (Perror "ioctl(EVIOCSKEYCODE_V2)");; exit 1%Z
  else ret tt.

End SetKeycode.

(** The client run against the engine: the world is the input device,
    and the ioctl hands the request to the get handler; a failure
    [-e] reaches the caller as return value -1 with [errno = e] and
    leaves the caller's record alone. *)
Definition engine_ioctl_get (order : byte_order)
    (to_scalar : input_keymap_entry -> option N)
    (fd : Z) (ke : input_keymap_entry) : prog input_dev ioctl_result :=
  fun dev =>
    match sparse_keymap_getkeycode_all order to_scalar dev ke with
    | (r, ke') =>
        if (r <? 0)%Z
        then ([], Running {| io_ret := (-1)%Z; io_errno := (- r)%Z; io_ke := ke |} dev)
        else ([], Running {| io_ret := r; io_errno := 0%Z; io_ke := ke' |} dev)
    end.

(** [first_at P l i x]: [x] is at position [i] of [l], fits [P], and no
    earlier element does. *)
Definition first_at {A} (P : A -> Prop) (l : list A) (i : nat) (x : A) : Prop :=
  l !! i = Some x /\ P x /\
  forall j y, (j < i)%nat -> l !! j = Some y -> ~ P y.

(** The outcomes of a set, by the path taken. *)
Inductive set_outcome (o : byte_order) (to_scalar : input_keymap_entry -> option N)
    (dev : input_dev) (ke : input_keymap_entry) (old_keycode : N)
    : Z * input_dev * N -> Prop :=
| set_no_keymap :
    dev_keycode dev = None ->
    set_outcome o to_scalar dev ke old_keycode ((- EINVAL)%Z, dev, old_keycode)
| set_not_found keys :
    dev_keycode dev = Some keys ->
    sparse_keymap_locate_all to_scalar keys ke = None ->
    set_outcome o to_scalar dev ke old_keycode ((- EINVAL)%Z, dev, old_keycode)
| set_too_long keys pos key :
    dev_keycode dev = Some keys ->
    sparse_keymap_locate_all to_scalar keys ke = Some (pos, key) ->
    N.of_nat sizeof_code < ke_len ke ->
    set_outcome o to_scalar dev ke old_keycode ((- EINVAL)%Z, dev, old_keycode)
| set_done keys pos key :
    dev_keycode dev = Some keys ->
    sparse_keymap_locate_all to_scalar keys ke = Some (pos, key) ->
    ke_len ke <= N.of_nat sizeof_code ->
    let key' := overwrite_entry o ke (override_type ke key) in
    let keys' := <[pos := key']> keys in
    set_outcome o to_scalar dev ke old_keycode
      (0%Z,
       {| dev_keycode := Some keys';
          dev_keybit := update_keybit keys' (key_type key) (key_keycode key)
                                      ke key' (dev_keybit dev) |},
       key_keycode key).

(** The type transition as the specification words it: new key code 0
    on a [Key] entry gives [Ignored]; otherwise an [Ignored] entry
    becomes [Key]; otherwise the type stays. *)
Definition spec_transition (new_keycode : N) (old_type : Z) : Z :=
  if N.eqb new_keycode KEY_RESERVED && Z.eqb old_type KE_KEY then KE_IGNORE
  else if Z.eqb old_type KE_IGNORE then KE_KEY
  else old_type.

(** ** A concrete device

    The keymap of the specification's scenario: two [Key] entries that
    share key code 5, one [Ignored] entry, and the sentinel. *)
Definition example_keymap : list key_entry :=
  [ mk_key_entry KE_KEY 0x1122 5;
    mk_key_entry KE_KEY 0x3344 5;
    mk_key_entry KE_IGNORE 0x5566 0;
    mk_key_entry KE_END 0 0 ].

Definition example_dev : input_dev :=
  {| dev_keycode := Some example_keymap; dev_keybit := set_bit 5 0 |}.

(** A request that locates by index, and one that locates by scancode. *)
Definition request_by_index (index : N) (scancode : list byte) (keycode : N)
    : input_keymap_entry :=
  {| ke_flags := INPUT_KEYMAP_BY_INDEX; ke_len := N.of_nat (length scancode);
     ke_index := index; ke_keycode := keycode;
     ke_scancode := scancode_buffer scancode |}.

Definition request_by_scancode (scancode : list byte) (keycode : N)
    : input_keymap_entry :=
  {| ke_flags := 0; ke_len := N.of_nat (length scancode);
     ke_index := 0; ke_keycode := keycode;
     ke_scancode := scancode_buffer scancode |}.

Definition linux_le : input_keymap_entry -> option N :=
  linux_scancode_to_scalar LittleEndian.

(** Index 0 with a scancode of five bytes. *)
Definition request_five_bytes : input_keymap_entry :=
  request_by_index 0 [x01; x02; x03; x04; x05] 9.

(** The two steps of the scenario: key code 0 for entry 0, then for
    entry 1. *)
Definition request_reserve_0 : input_keymap_entry :=
  request_by_index 0 [x22; x11] 0.
Definition request_reserve_1 : input_keymap_entry :=
  request_by_index 1 [x44; x33] 0.

(** Key code 0 for entry 2, which is [Ignored]. *)
Definition request_reserve_2 : input_keymap_entry :=
  request_by_index 2 [x66; x55] 0.

(** Key code 7 and a one-byte scancode for entry 1. *)
Definition request_one_byte : input_keymap_entry :=
  request_by_index 1 [xab] 7.

(** A lookup of scancode [0x1122] given in two bytes. *)
Definition request_two_byte_lookup : input_keymap_entry :=
  request_by_scancode [x22; x11] 0.

(** The device after the first and after the second step of the
    scenario. *)
Definition example_dev_1 : input_dev :=
  (sparse_keymap_setkeycode_all LittleEndian linux_le example_dev
     request_reserve_0 0).1.2.
Definition example_dev_2 : input_dev :=
  (sparse_keymap_setkeycode_all LittleEndian linux_le example_dev_1
     request_reserve_1 0).1.2.

(** A keymap with the code [0xe0] at positions 1 and 2, and the lookup
    of that code given in one byte. *)
Definition duplicate_keymap : list key_entry :=
  [ mk_key_entry KE_KEY 0x10 16;
    mk_key_entry KE_KEY 0xe0 30;
    mk_key_entry KE_IGNORE 0xe0 0;
    mk_key_entry KE_END 0 0 ].

Definition request_lookup_e0 : input_keymap_entry :=
  request_by_scancode [xe0] 0.

(** The row [print_keymap] prints for entry [i] of the keymap when the
    engine answers. *)
Definition entry_row (order : byte_order) (key_names : list (N * string))
    (i : nat) (key : key_entry) : event :=
  Row (N.of_nat i)
      (scancode_to_string order EmptyString
         (store_bytes order sizeof_code (key_code key)) sizeof_code)
      (key_keycode key)
      (match get_key_by_code key_names (key_keycode key) with
       | Some name => name
       | None => "?"%string
       end).

(** A lookup of scancode [0x3344], a remapping of the [Ignored] entry 2
    to key code 30 with the device it leaves, and a keymap whose only
    entry is a switch. *)
Definition request_lookup_3344 : input_keymap_entry :=
  request_by_scancode [x44; x33] 0.

Definition request_remap_2 : input_keymap_entry :=
  request_by_index 2 [x66; x55] 30.


Definition example_dev_remapped : input_dev :=
  (sparse_keymap_setkeycode_all LittleEndian linux_le example_dev
     request_remap_2 0).1.2.

Definition switch_keymap : list key_entry :=
  [ mk_key_entry KE_SW 0x20 5;
    mk_key_entry KE_END 0 0 ].

Definition switch_dev : input_dev :=
  {| dev_keycode := Some switch_keymap; dev_keybit := 0 |}.

Definition request_switch : input_keymap_entry :=
  request_by_index 0 [xab] 7.

(** Readings of [sscanf] for concrete runs: [scan_nothing] converts
    nothing; [scan_two_hex] gives two hexadecimal digits their value. *)
Definition hex_digit_value (c : ascii) : option N :=
  let n := N_of_ascii c in
  if (48 <=? n) && (n <=? 57) then Some (n - 48)
  else if (97 <=? n) && (n <=? 102) then Some (n - 87)
  else if (65 <=? n) && (n <=? 70) then Some (n - 55)
  else None.

Definition scan_two_hex (s : string) : option (N * nat) :=
  match s with
  | String a (String b _) =>
      match hex_digit_value a, hex_digit_value b with
      | Some x, Some y => Some (16 * x + y, 2%nat)
      | _, _ => None
      end
  | _ => None
  end.

Definition scan_nothing (s : string) : option (N * nat) := None.

(** A table of two key names, and the world of a client that has the
    example device behind every file descriptor. *)
Definition example_key_names : list (N * string) :=
  [ (30, "A"%string); (116, "POWER"%string) ].

Definition example_open (path : string) : prog input_dev Z := ret 3%Z.
Definition example_close (fd : Z) : prog input_dev unit := ret tt.
Definition example_ioctl_set (fd : Z) (ke : input_keymap_entry)
    : prog input_dev Z := ret 0%Z.

(** A keymap with as many entries as a 16-bit index can name. *)
Definition full_keymap : list key_entry :=
  replicate (N.to_nat 0x10000) (mk_key_entry KE_KEY 1 1)
  ++ [mk_key_entry KE_END 0 0].

Definition full_dev : input_dev :=
  {| dev_keycode := Some full_keymap; dev_keybit := set_bit 1 0 |}.

(** * Properties *)

(** ** Bytes and machine integers *)

Lemma to_N_byte_of_N (n : N) : Byte.to_N (byte_of_N n) = n mod 256.
Proof.
  unfold byte_of_N.
  destruct (Byte.of_N (n mod 256)) as [b|] eqn:E.
  - now apply Byte.to_of_N.
  - apply Byte.of_N_None_iff in E.
    pose proof (N.mod_upper_bound n 256). lia.
Qed.

Lemma byte_of_N_to_N (b : byte) : byte_of_N (Byte.to_N b) = b.
Proof.
  unfold byte_of_N.
  pose proof (Byte.to_N_bounded b) as Hb.
  rewrite N.mod_small by lia.
  now rewrite Byte.of_to_N.
Qed.

Lemma length_le_bytes (n : nat) (v : N) : length (le_bytes n v) = n.
Proof. revert v. induction n as [|n IH]; intros v; simpl; [done | now rewrite IH]. Qed.

Lemma length_store_bytes (o : byte_order) (n : nat) (v : N) :
  length (store_bytes o n v) = n.
Proof.
  destruct o; simpl; [| rewrite length_reverse]; apply length_le_bytes.
Qed.

Lemma le_bytes_zero (n : nat) : le_bytes n 0 = replicate n x00.
Proof.
  induction n as [|n IH]; cbn [le_bytes replicate]; [done |].
  change (0 / 256) with 0. now rewrite IH.
Qed.

Lemma store_bytes_zero (o : byte_order) (n : nat) :
  store_bytes o n 0 = replicate n x00.
Proof.
  destruct o; simpl; rewrite le_bytes_zero; [done |].
  apply reverse_replicate.
Qed.

Lemma byte_of_N_low (b : byte) (x : N) : byte_of_N (Byte.to_N b + 256 * x) = b.
Proof.
  rewrite <- (byte_of_N_to_N b) at 2.
  unfold byte_of_N.
  now rewrite (N.mul_comm 256 x), N.Div0.mod_add.
Qed.

(** Writing a value out and reading it back. *)
Lemma le_bytes_le_value (bs : list byte) :
  le_bytes (length bs) (le_value bs) = bs.
Proof.
  induction bs as [|b bs IH]; [done |].
  cbn [length le_bytes le_value].
  pose proof (Byte.to_N_bounded b) as Hb.
  rewrite byte_of_N_low. f_equal.
  replace ((Byte.to_N b + 256 * le_value bs) / 256) with (le_value bs);
    [exact IH |].
  rewrite (N.mul_comm 256), N.div_add by discriminate.
  rewrite (N.div_small (Byte.to_N b)) by lia. reflexivity.
Qed.

Lemma le_value_le_bytes (n : nat) (v : N) :
  le_value (le_bytes n v) = v mod 256 ^ N.of_nat n.
Proof.
  revert v. induction n as [|n IH]; intros v.
  - simpl. now rewrite N.mod_1_r.
  - cbn [le_bytes le_value]. rewrite to_N_byte_of_N, IH.
    rewrite Nat2N.inj_succ, N.pow_succ_r by lia.
    rewrite N.Div0.mod_mul_r. lia.
Qed.

Lemma le_value_zeros (bs : list byte) (n : nat) :
  le_value (bs ++ replicate n x00) = le_value bs.
Proof.
  induction bs as [|b bs IH]; simpl.
  - induction n as [|n IHn]; simpl; [done | rewrite IHn; reflexivity].
  - now rewrite IH.
Qed.

Lemma le_value_bound (bs : list byte) :
  le_value bs < 256 ^ N.of_nat (length bs).
Proof.
  induction bs as [|b bs IH].
  - simpl. lia.
  - cbn [le_value length]. rewrite Nat2N.inj_succ, N.pow_succ_r by lia.
    pose proof (Byte.to_N_bounded b). lia.
Qed.

Lemma store_bytes_load_bytes (o : byte_order) (bs : list byte) :
  store_bytes o (length bs) (load_bytes o bs) = bs.
Proof.
  destruct o; simpl.
  - apply le_bytes_le_value.
  - rewrite <- (length_reverse bs), le_bytes_le_value.
    apply reverse_involutive.
Qed.

Lemma load_bytes_store_bytes (o : byte_order) (n : nat) (v : N) :
  load_bytes o (store_bytes o n v) = v mod 256 ^ N.of_nat n.
Proof.
  destruct o; simpl.
  - apply le_value_le_bytes.
  - rewrite reverse_involutive. apply le_value_le_bytes.
Qed.

Lemma memcpy_take (dst src : list byte) (n : nat) :
  (n <= length src)%nat -> take n (memcpy dst src n) = take n src.
Proof.
  intros H. unfold memcpy.
  rewrite take_app_le by (rewrite length_take; lia).
  rewrite take_take. f_equal. lia.
Qed.

Lemma memcpy_drop (dst src : list byte) (n : nat) :
  (n <= length src)%nat -> drop n (memcpy dst src n) = drop n dst.
Proof.
  intros H. unfold memcpy.
  rewrite drop_app_ge by (rewrite length_take; lia).
  rewrite length_take.
  replace (n - n `min` length src)%nat with 0%nat by lia. done.
Qed.

(** ** The keymap and its sentinel *)

Lemma keymap_entries_lookup (keys : list key_entry) (i : nat) (key : key_entry) :
  keymap_entries keys !! i = Some key ->
  keys !! i = Some key /\ key_type key <> KE_END.
Proof.
  revert i. induction keys as [|k keys IH]; intros i; simpl; [done |].
  destruct (Z.eqb_spec (key_type k) KE_END) as [E|E]; [done |].
  destruct i as [|i]; simpl.
  - intros [= ->]. done.
  - apply IH.
Qed.

Lemma keymap_entries_insert (keys : list key_entry) (pos : nat)
    (key key' : key_entry) :
  keymap_entries keys !! pos = Some key ->
  key_type key' <> KE_END ->
  keymap_entries (<[pos := key']> keys) = <[pos := key']> (keymap_entries keys).
Proof.
  revert pos. induction keys as [|k keys IH]; intros pos; simpl; [done |].
  destruct (Z.eqb_spec (key_type k) KE_END) as [E|E]; [done |].
  destruct pos as [|pos]; simpl; intros Hl Hk.
  - destruct (Z.eqb_spec (key_type key') KE_END); done.
  - destruct (Z.eqb_spec (key_type k) KE_END); [done |].
    f_equal. now apply IH.
Qed.

(** ** The lookups find the first entry that fits *)

Lemma entry_by_index_loop_spec (keys : list key_entry) (pos : nat)
    (key_cnt index : N) :
  key_cnt <= index -> index < 2 ^ 32 ->
  entry_by_index_loop keys pos key_cnt index =
  match keymap_entries keys !! N.to_nat (index - key_cnt) with
  | Some key => Some ((pos + N.to_nat (index - key_cnt))%nat, key)
  | None => None
  end.
Proof.
  revert pos key_cnt.
  induction keys as [|k keys IH]; intros pos cnt Hle Hlt; simpl; [done |].
  destruct (Z.eqb_spec (key_type k) KE_END) as [E|E]; [done |].
  destruct (N.eqb_spec cnt index) as [->|Hne].
  - rewrite N.sub_diag. simpl. f_equal. f_equal. lia.
  - assert (u32 (cnt + 1) = cnt + 1) as ->.
    { unfold u32. apply N.mod_small. lia. }
    rewrite IH by lia.
    replace (N.to_nat (index - cnt)) with (S (N.to_nat (index - (cnt + 1)))) by lia.
    simpl. destruct (keymap_entries keys !! _); [| done].
    f_equal. f_equal. lia.
Qed.

Lemma entry_from_scancode_loop_Some (keys : list key_entry) (pos : nat)
    (code : N) (p : nat) (key : key_entry) :
  entry_from_scancode_loop keys pos code = Some (p, key) <->
  exists i, p = (pos + i)%nat /\
            first_at (fun k => key_code k = code) (keymap_entries keys) i key.
Proof.
  revert pos. induction keys as [|k keys IH]; intros pos; simpl.
  - split; [done | intros (i & _ & H & _); done].
  - destruct (Z.eqb_spec (key_type k) KE_END) as [E|E].
    { split; [done | intros (i & _ & H & _); done]. }
    destruct (N.eqb_spec code (key_code k)) as [Hc|Hc].
    + split.
      * intros [= <- <-]. exists 0%nat. split; [lia |].
        split; [done |]. split; [done |]. intros j y Hj. lia.
      * intros (i & -> & Hi & Hk & Hfirst).
        destruct i as [|i].
        -- simpl in Hi. injection Hi as <-. f_equal. f_equal. lia.
        -- exfalso. apply (Hfirst 0%nat k); [lia | done | done].
    + rewrite IH. split.
      * intros (i & -> & Hi & Hk & Hfirst). exists (S i).
        split; [lia |]. split; [done |]. split; [done |].
        intros [|j] y Hj; simpl.
        -- intros [= <-]. congruence.
        -- apply Hfirst. lia.
      * intros (i & -> & Hi & Hk & Hfirst).
        destruct i as [|i].
        -- simpl in Hi. injection Hi as <-. congruence.
        -- exists i. split; [lia |]. split; [done |]. split; [done |].
           intros j y Hj Hy. apply (Hfirst (S j)); [lia | done].
Qed.

Lemma entry_from_scancode_loop_None (keys : list key_entry) (pos : nat) (code : N) :
  entry_from_scancode_loop keys pos code = None <->
  forall key, key ∈ keymap_entries keys -> key_code key <> code.
Proof.
  revert pos. induction keys as [|k keys IH]; intros pos; simpl.
  - split; [| done]. intros _ key H. inversion H.
  - destruct (Z.eqb_spec (key_type k) KE_END) as [E|E].
    { split; [| done]. intros _ key H. inversion H. }
    destruct (N.eqb_spec code (key_code k)) as [Hc|Hc].
    + split; [done |]. intros H. exfalso. apply (H k); [left | done].
    + rewrite IH. split.
      * intros H key Hin. apply elem_of_cons in Hin as [-> | Hin]; [congruence |].
        now apply H.
      * intros H key Hin. apply H. now right.
Qed.

Lemma entry_from_keycode_loop_Some (keys : list key_entry) (pos : nat)
    (keycode : N) :
  is_Some (entry_from_keycode_loop keys pos keycode) <->
  exists key, key ∈ keymap_entries keys /\ references keycode key.
Proof.
  revert pos. induction keys as [|k keys IH]; intros pos; simpl.
  - split; [intros [? ?]; done | intros (key & H & _); inversion H].
  - destruct (Z.eqb_spec (key_type k) KE_END) as [E|E].
    { split; [intros [? ?]; done | intros (key & H & _); inversion H]. }
    destruct (Z.eqb_spec (key_type k) KE_KEY) as [Ht|Ht];
      [destruct (N.eqb_spec keycode (key_keycode k)) as [Hc|Hc] |]; simpl.
    + split; [| eauto]. intros _. exists k. split; [left | done].
    + rewrite IH. split.
      * intros (key & Hin & Hr). exists key. split; [now right | done].
      * intros (key & Hin & Hr).
        apply elem_of_cons in Hin as [-> | Hin]; [| eauto].
        destruct Hr as [_ Hr]. congruence.
    + rewrite IH. split.
      * intros (key & Hin & Hr). exists key. split; [now right | done].
      * intros (key & Hin & Hr).
        apply elem_of_cons in Hin as [-> | Hin]; [| eauto].
        destruct Hr as [Hr _]. congruence.
Qed.

Lemma entry_by_index_loop_valid (keys : list key_entry) (pos : nat)
    (key_cnt index : N) (p : nat) (key : key_entry) :
  entry_by_index_loop keys pos key_cnt index = Some (p, key) ->
  exists i, p = (pos + i)%nat /\ keymap_entries keys !! i = Some key.
Proof.
  revert pos key_cnt. induction keys as [|k keys IH]; intros pos cnt; simpl; [done |].
  destruct (Z.eqb_spec (key_type k) KE_END) as [E|E]; [done |].
  destruct (N.eqb_spec cnt index) as [->|Hne].
  - intros [= <- <-]. exists 0%nat. split; [lia | done].
  - intros H. apply IH in H as (i & -> & Hi). exists (S i). split; [lia | done].
Qed.

(** ** Located entries *)

Lemma locate_all_valid (to_scalar : input_keymap_entry -> option N)
    (keys : list key_entry) (ke : input_keymap_entry) (pos : nat)
    (key : key_entry) :
  sparse_keymap_locate_all to_scalar keys ke = Some (pos, key) ->
  keymap_entries keys !! pos = Some key.
Proof.
  unfold sparse_keymap_locate_all.
  destruct (by_index ke).
  - intros H. apply entry_by_index_loop_valid in H as (i & -> & Hi). done.
  - destruct (to_scalar ke) as [c|]; [| done].
    intros H. apply entry_from_scancode_loop_Some in H as (i & -> & Hi & _). done.
Qed.

Lemma override_type_not_END (ke : input_keymap_entry) (key : key_entry) :
  key_type key <> KE_END -> key_type (override_type ke key) <> KE_END.
Proof.
  intros H. unfold override_type.
  destruct (N.eqb _ _); [destruct (Z.eqb_spec (key_type key) KE_KEY)
                        | destruct (Z.eqb_spec (key_type key) KE_IGNORE)];
    simpl; done.
Qed.

Lemma overwrite_entry_type (o : byte_order) (ke : input_keymap_entry)
    (key : key_entry) :
  key_type (overwrite_entry o ke key) = key_type key.
Proof. reflexivity. Qed.

Lemma u16_small (x : N) : x < 0x10000 -> u16 x = x.
Proof. intros H. unfold u16. apply N.mod_small. exact H. Qed.

(** The [u16] field holds a number below 2^16, and an assignment to it
    keeps the low 16 bits of the value assigned. *)
Lemma key_keycode_lt (key : key_entry) : key_keycode key < 2 ^ 16.
Proof. apply N.ltb_lt, u16_below. Qed.

Lemma key_keycode_set_key_keycode (key : key_entry) (k : N) :
  key_keycode (set_key_keycode key k) = u16 k.
Proof. reflexivity. Qed.

Lemma overwrite_entry_keycode (o : byte_order) (ke : input_keymap_entry)
    (key : key_entry) :
  key_keycode (overwrite_entry o ke key) = u16 (ke_keycode ke).
Proof. reflexivity. Qed.

Lemma key_keycode_mk_key_entry (type : Z) (code keycode : N) :
  key_keycode (mk_key_entry type code keycode) = u16 keycode.
Proof. reflexivity. Qed.

Lemma setkeycode_all_outcome (o : byte_order)
    (to_scalar : input_keymap_entry -> option N) (dev : input_dev)
    (ke : input_keymap_entry) (old_keycode : N) :
  set_outcome o to_scalar dev ke old_keycode
    (sparse_keymap_setkeycode_all o to_scalar dev ke old_keycode).
Proof.
  unfold sparse_keymap_setkeycode_all.
  destruct (dev_keycode dev) as [keys|] eqn:Hk; [| now apply set_no_keymap].
  destruct (sparse_keymap_locate_all to_scalar keys ke) as [[pos key]|] eqn:Hl;
    [| now apply (set_not_found _ _ _ _ _ keys)].
  destruct (N.ltb_spec (N.of_nat sizeof_code) (ke_len ke)) as [Hlen|Hlen].
  - now apply (set_too_long _ _ _ _ _ keys pos key).
  - now apply set_done.
Qed.

(** ** Failure leaves the device alone *)

(** C4: when set returns an error, the keymap, the active-keycode bitmap
    and [*old_keycode] are as they were; the error is [-EINVAL], both when
    no entry is located and when the scancode is too long. *)
Theorem setkeycode_error_changes_nothing (o : byte_order)
    (to_scalar : input_keymap_entry -> option N) (dev dev' : input_dev)
    (ke : input_keymap_entry) (old_keycode old_keycode' : N) (r : Z) :
  sparse_keymap_setkeycode_all o to_scalar dev ke old_keycode
    = (r, dev', old_keycode') ->
  r <> 0%Z ->
  dev' = dev /\ dev_entries dev' = dev_entries dev /\
  dev_keybit dev' = dev_keybit dev /\ old_keycode' = old_keycode /\
  r = (- EINVAL)%Z /\
  (dev_keycode dev = None \/
   exists keys,
     dev_keycode dev = Some keys /\
     (sparse_keymap_locate_all to_scalar keys ke = None \/
      is_Some (sparse_keymap_locate_all to_scalar keys ke) /\ 4 < ke_len ke)).
Proof.
  intros Hset Hr.
  destruct (setkeycode_all_outcome o to_scalar dev ke old_keycode)
    as [Hk|keys Hk Hl|keys pos key Hk Hl Hlen|keys pos key Hk Hl Hlen key' keys'];
    injection Hset as <- <- <-; try done; repeat (split; [done |]).
  - now left.
  - right. exists keys. split; [done |]. now left.
  - right. exists keys. split; [done |]. right. split; [eauto | exact Hlen].
Qed.

Lemma setkeycode_error_changes_nothing_witness :
  sparse_keymap_setkeycode_all LittleEndian linux_le example_dev
    request_five_bytes 77 = ((- EINVAL)%Z, example_dev, 77) /\
  (- EINVAL)%Z <> 0%Z /\
  (example_dev = example_dev /\ dev_entries example_dev = dev_entries example_dev /\
   dev_keybit example_dev = dev_keybit example_dev /\ 77 = 77 /\
   (- EINVAL)%Z = (- EINVAL)%Z /\
   (dev_keycode example_dev = None \/
    exists keys,
      dev_keycode example_dev = Some keys /\
      (sparse_keymap_locate_all linux_le keys request_five_bytes = None \/
       is_Some (sparse_keymap_locate_all linux_le keys request_five_bytes) /\
       4 < ke_len request_five_bytes))).
Proof.
  split; [reflexivity |]. split; [discriminate |].
  apply (setkeycode_error_changes_nothing LittleEndian linux_le
           example_dev example_dev request_five_bytes 77 77);
    [reflexivity | discriminate].
Defined.

(** ** The length check *)

Lemma located_entry_not_END (to_scalar : input_keymap_entry -> option N)
    (keys : list key_entry) (ke : input_keymap_entry) (pos : nat)
    (key : key_entry) :
  sparse_keymap_locate_all to_scalar keys ke = Some (pos, key) ->
  keys !! pos = Some key /\ key_type key <> KE_END /\
  (pos < length (keymap_entries keys))%nat.
Proof.
  intros H. apply locate_all_valid in H.
  pose proof (keymap_entries_lookup _ _ _ H) as [H1 H2].
  split; [done |]. split; [done |]. now apply lookup_lt_Some in H.
Qed.

(** The keymap after a set that went through. *)
Lemma setkeycode_entries (o : byte_order)
    (to_scalar : input_keymap_entry -> option N) (keys : list key_entry)
    (ke : input_keymap_entry) (pos : nat) (key : key_entry) :
  sparse_keymap_locate_all to_scalar keys ke = Some (pos, key) ->
  let key' := overwrite_entry o ke (override_type ke key) in
  keymap_entries (<[pos := key']> keys) = <[pos := key']> (keymap_entries keys) /\
  keymap_entries (<[pos := key']> keys) !! pos = Some key'.
Proof.
  intros H key'.
  pose proof (located_entry_not_END _ _ _ _ _ H) as (Hk & Ht & Hlt).
  assert (keymap_entries (<[pos := key']> keys)
          = <[pos := key']> (keymap_entries keys)) as E.
  { eapply keymap_entries_insert; [exact (locate_all_valid _ _ _ _ _ H) |].
    unfold key'. rewrite overwrite_entry_type. now apply override_type_not_END. }
  split; [done |]. rewrite E. now apply list_lookup_insert_eq.
Qed.

(** C3 (as the code has it): on a located entry, set answers [-EINVAL]
    exactly when the scancode is longer than 4 bytes, the size of the
    stored code; with at most 4 bytes it returns 0 and the located entry
    is overwritten. *)
Theorem setkeycode_length_limit (o : byte_order)
    (to_scalar : input_keymap_entry -> option N) (dev : input_dev)
    (keys : list key_entry) (ke : input_keymap_entry) (pos : nat)
    (key : key_entry) (old_keycode : N) :
  dev_keycode dev = Some keys ->
  sparse_keymap_locate_all to_scalar keys ke = Some (pos, key) ->
  ((sparse_keymap_setkeycode_all o to_scalar dev ke old_keycode).1.1
     = (- EINVAL)%Z <-> 4 < ke_len ke) /\
  (4 < ke_len ke ->
     sparse_keymap_setkeycode_all o to_scalar dev ke old_keycode
       = ((- EINVAL)%Z, dev, old_keycode)) /\
  (ke_len ke <= 4 ->
     exists dev',
       sparse_keymap_setkeycode_all o to_scalar dev ke old_keycode
         = (0%Z, dev', key_keycode key) /\
       dev_entries dev' =
         <[pos := overwrite_entry o ke (override_type ke key)]>
           (keymap_entries keys)).
Proof.
  intros Hk Hl.
  pose proof (setkeycode_entries o _ _ _ _ _ Hl) as [E _].
  unfold sparse_keymap_setkeycode_all. rewrite Hk, Hl.
  change (N.of_nat sizeof_code) with 4.
  destruct (N.ltb_spec 4 (ke_len ke)) as [Hlen|Hlen]; simpl.
  - split; [done |]. split; [done |]. lia.
  - split; [split; [discriminate | lia] |]. split; [lia |].
    intros _. eexists. split; [reflexivity |].
    unfold dev_entries. simpl. done.
Qed.

Lemma setkeycode_length_limit_witness :
  dev_keycode example_dev = Some example_keymap /\
  sparse_keymap_locate_all linux_le example_keymap request_one_byte
    = Some (1%nat, mk_key_entry KE_KEY 0x3344 5) /\
  (((sparse_keymap_setkeycode_all LittleEndian linux_le example_dev
       request_one_byte 77).1.1 = (- EINVAL)%Z <-> 4 < ke_len request_one_byte) /\
   (4 < ke_len request_one_byte ->
      sparse_keymap_setkeycode_all LittleEndian linux_le example_dev
        request_one_byte 77 = ((- EINVAL)%Z, example_dev, 77)) /\
   (ke_len request_one_byte <= 4 ->
      exists dev',
        sparse_keymap_setkeycode_all LittleEndian linux_le example_dev
          request_one_byte 77 = (0%Z, dev', 5) /\
        dev_entries dev' =
          <[1%nat := overwrite_entry LittleEndian request_one_byte
                       (override_type request_one_byte
                          (mk_key_entry KE_KEY 0x3344 5))]>
            (keymap_entries example_keymap))).
Proof.
  split; [reflexivity |]. split; [reflexivity |].
  apply (setkeycode_length_limit LittleEndian linux_le example_dev example_keymap
           request_one_byte 1
           (mk_key_entry KE_KEY 0x3344 5) 77);
    reflexivity.
Defined.

(** C3, counterexample: a request of five bytes, within the 32 of the
    wire record, on a located entry is refused. *)
Lemma setkeycode_five_bytes_refused :
  ke_len request_five_bytes = 5 /\ ke_len request_five_bytes <= 32 /\
  is_Some (sparse_keymap_locate_all linux_le example_keymap request_five_bytes) /\
  sparse_keymap_setkeycode_all LittleEndian linux_le example_dev
    request_five_bytes 77 = ((- EINVAL)%Z, example_dev, 77).
Proof.
  split; [reflexivity |]. split; [vm_compute; discriminate |].
  split; [eexists; reflexivity | reflexivity].
Qed.

(** ** The type transition *)

(** C2 (as the code has it): a set that goes through commits the low
    16 bits of the new key code, and the committed type is [Ignored] for
    new key code 0 on a [Key] entry, [Key] for a new key code other than 0 on an
    [Ignored] entry, and the old type in every other case; it is the type
    of the specification's rule except for an [Ignored] entry given key
    code 0, which stays [Ignored]. *)
Theorem setkeycode_type_transition (o : byte_order)
    (to_scalar : input_keymap_entry -> option N) (dev : input_dev)
    (keys : list key_entry) (ke : input_keymap_entry) (pos : nat)
    (key : key_entry) (old_keycode : N) :
  dev_keycode dev = Some keys ->
  sparse_keymap_locate_all to_scalar keys ke = Some (pos, key) ->
  ke_len ke <= 4 ->
  exists dev' key',
    sparse_keymap_setkeycode_all o to_scalar dev ke old_keycode
      = (0%Z, dev', key_keycode key) /\
    dev_entries dev' !! pos = Some key' /\
    key_keycode key' = u16 (ke_keycode ke) /\
    (ke_keycode ke = 0 -> key_type key = KE_KEY -> key_type key' = KE_IGNORE) /\
    (ke_keycode ke <> 0 -> key_type key = KE_IGNORE -> key_type key' = KE_KEY) /\
    (ke_keycode ke = 0 -> key_type key <> KE_KEY -> key_type key' = key_type key) /\
    (ke_keycode ke <> 0 -> key_type key <> KE_IGNORE ->
       key_type key' = key_type key) /\
    (~ (ke_keycode ke = 0 /\ key_type key = KE_IGNORE) ->
       key_type key' = spec_transition (ke_keycode ke) (key_type key)).
Proof.
  intros Hk Hl Hlen.
  pose proof (setkeycode_entries o _ _ _ _ _ Hl) as [_ E].
  unfold sparse_keymap_setkeycode_all. rewrite Hk, Hl.
  change (N.of_nat sizeof_code) with 4.
  destruct (N.ltb_spec 4 (ke_len ke)) as [Hlt|_]; [lia |].
  eexists. eexists. split; [reflexivity |].
  split; [exact E |]. split; [reflexivity |].
  rewrite overwrite_entry_type.
  unfold override_type, spec_transition, KEY_RESERVED.
  destruct (N.eqb_spec (ke_keycode ke) 0) as [K|K];
    destruct (Z.eqb_spec (key_type key) KE_KEY) as [T1|T1];
    destruct (Z.eqb_spec (key_type key) KE_IGNORE) as [T2|T2];
    simpl; repeat split; try done; try congruence; intros; try tauto.
Qed.

Lemma setkeycode_type_transition_witness :
  dev_keycode example_dev = Some example_keymap /\
  sparse_keymap_locate_all linux_le example_keymap request_reserve_0
    = Some (0%nat, mk_key_entry KE_KEY 0x1122 5) /\
  ke_len request_reserve_0 <= 4 /\
  exists dev' key',
    sparse_keymap_setkeycode_all LittleEndian linux_le example_dev
      request_reserve_0 77 = (0%Z, dev', 5) /\
    dev_entries dev' !! 0%nat = Some key' /\
    key_keycode key' = u16 (ke_keycode request_reserve_0) /\
    (ke_keycode request_reserve_0 = 0 -> KE_KEY = KE_KEY ->
       key_type key' = KE_IGNORE) /\
    (ke_keycode request_reserve_0 <> 0 -> KE_KEY = KE_IGNORE ->
       key_type key' = KE_KEY) /\
    (ke_keycode request_reserve_0 = 0 -> KE_KEY <> KE_KEY ->
       key_type key' = KE_KEY) /\
    (ke_keycode request_reserve_0 <> 0 -> KE_KEY <> KE_IGNORE ->
       key_type key' = KE_KEY) /\
    (~ (ke_keycode request_reserve_0 = 0 /\ KE_KEY = KE_IGNORE) ->
       key_type key' = spec_transition (ke_keycode request_reserve_0) KE_KEY).
Proof.
  split; [reflexivity |]. split; [reflexivity |].
  split; [vm_compute; discriminate |].
  apply (setkeycode_type_transition LittleEndian linux_le example_dev
           example_keymap request_reserve_0 0
           (mk_key_entry KE_KEY 0x1122 5) 77);
    [reflexivity | reflexivity | vm_compute; discriminate].
Defined.

(** C2, counterexample: key code 0 for the [Ignored] entry 2 goes
    through and leaves the entry [Ignored], where the rule of the
    specification gives [Key]. *)
Lemma setkeycode_ignored_reserved_stays_ignored :
  exists dev',
    sparse_keymap_setkeycode_all LittleEndian linux_le example_dev
      request_reserve_2 77 = (0%Z, dev', 0) /\
    example_keymap !! 2%nat
      = Some (mk_key_entry KE_IGNORE 0x5566 0) /\
    dev_entries dev' !! 2%nat
      = Some (mk_key_entry KE_IGNORE 0x5566 0) /\
    spec_transition (ke_keycode request_reserve_2) KE_IGNORE = KE_KEY /\
    KE_IGNORE <> KE_KEY.
Proof.
  eexists. split; [reflexivity |].
  split; [reflexivity |]. split; [reflexivity |]. split; [reflexivity | discriminate].
Qed.

(** ** What get returns and what set stores *)

Lemma getkeycode_all_located (o : byte_order)
    (to_scalar : input_keymap_entry -> option N) (dev : input_dev)
    (ke ke' : input_keymap_entry) :
  sparse_keymap_getkeycode_all o to_scalar dev ke = (0%Z, ke') ->
  exists keys pos key,
    dev_keycode dev = Some keys /\
    sparse_keymap_locate_all to_scalar keys ke = Some (pos, key) /\
    ke_keycode ke' = key_keycode key /\
    ke_len ke' = 4 /\
    ke_flags ke' = ke_flags ke /\
    ke_scancode ke' = memcpy (ke_scancode ke) (store_bytes o 4 (key_code key)) 4.
Proof.
  unfold sparse_keymap_getkeycode_all.
  destruct (dev_keycode dev) as [keys|]; [| discriminate].
  destruct (sparse_keymap_locate_all to_scalar keys ke) as [[pos key]|] eqn:Hl;
    [| discriminate].
  intros [= <-]. exists keys, pos, key.
  split; [done |]. split; [done |].
  destruct (negb _); done.
Qed.

(** C9: a get that succeeds answers with length 4, whatever the request
    held, and with the 4 bytes of the located entry's code in machine
    byte order at the head of the scancode field; the bytes behind them
    are the request's. *)
Theorem getkeycode_returns_four_bytes (o : byte_order)
    (to_scalar : input_keymap_entry -> option N) (dev : input_dev)
    (ke ke' : input_keymap_entry) :
  sparse_keymap_getkeycode_all o to_scalar dev ke = (0%Z, ke') ->
  ke_len ke' = 4 /\
  exists keys pos key,
    dev_keycode dev = Some keys /\
    sparse_keymap_locate_all to_scalar keys ke = Some (pos, key) /\
    take 4 (ke_scancode ke') = store_bytes o 4 (key_code key) /\
    length (store_bytes o 4 (key_code key)) = 4%nat /\
    load_bytes o (take 4 (ke_scancode ke')) = key_code key mod 2 ^ 32 /\
    drop 4 (ke_scancode ke') = drop 4 (ke_scancode ke).
Proof.
  intros H.
  apply getkeycode_all_located in H
    as (keys & pos & key & Hk & Hl & _ & Hlen & _ & Hsc).
  split; [done |]. exists keys, pos, key.
  split; [done |]. split; [done |].
  assert (length (store_bytes o 4 (key_code key)) = 4%nat) as L
    by apply length_store_bytes.
  assert (take 4 (ke_scancode ke') = store_bytes o 4 (key_code key)) as T.
  { rewrite Hsc, memcpy_take by lia. apply take_ge. lia. }
  split; [done |]. split; [done |].
  split; [| rewrite Hsc; apply memcpy_drop; lia].
  rewrite T, load_bytes_store_bytes. reflexivity.
Qed.

Lemma getkeycode_returns_four_bytes_witness :
  sparse_keymap_getkeycode_all LittleEndian linux_le example_dev
    request_two_byte_lookup
  = (0%Z, (sparse_keymap_getkeycode_all LittleEndian linux_le example_dev
             request_two_byte_lookup).2) /\
  (ke_len (sparse_keymap_getkeycode_all LittleEndian linux_le example_dev
             request_two_byte_lookup).2 = 4 /\
   exists keys pos key,
     dev_keycode example_dev = Some keys /\
     sparse_keymap_locate_all linux_le keys request_two_byte_lookup
       = Some (pos, key) /\
     take 4 (ke_scancode (sparse_keymap_getkeycode_all LittleEndian linux_le
                            example_dev request_two_byte_lookup).2)
       = store_bytes LittleEndian 4 (key_code key) /\
     length (store_bytes LittleEndian 4 (key_code key)) = 4%nat /\
     load_bytes LittleEndian
       (take 4 (ke_scancode (sparse_keymap_getkeycode_all LittleEndian linux_le
                               example_dev request_two_byte_lookup).2))
       = key_code key mod 2 ^ 32 /\
     drop 4 (ke_scancode (sparse_keymap_getkeycode_all LittleEndian linux_le
                            example_dev request_two_byte_lookup).2)
       = drop 4 (ke_scancode request_two_byte_lookup)).
Proof.
  split; [reflexivity |].
  apply (getkeycode_returns_four_bytes LittleEndian linux_le example_dev
           request_two_byte_lookup).
  reflexivity.
Defined.

Lemma overwrite_entry_code (o : byte_order) (ke : input_keymap_entry)
    (key : key_entry) :
  (N.to_nat (ke_len ke) <= 4)%nat ->
  (N.to_nat (ke_len ke) <= length (ke_scancode ke))%nat ->
  key_code (overwrite_entry o ke key)
  = load_bytes o (take (N.to_nat (ke_len ke)) (ke_scancode ke)
                  ++ replicate (4 - N.to_nat (ke_len ke)) x00) /\
  length (take (N.to_nat (ke_len ke)) (ke_scancode ke)
          ++ replicate (4 - N.to_nat (ke_len ke)) x00) = 4%nat.
Proof.
  intros H4 Hsc. unfold overwrite_entry. simpl.
  change sizeof_code with 4%nat.
  rewrite store_bytes_zero. unfold memcpy. rewrite drop_replicate.
  split; [done |].
  rewrite length_app, length_take, length_replicate. lia.
Qed.

(** C10: a set that succeeds leaves in the entry's code exactly the
    request's [len] scancode bytes followed by zero bytes up to 4: no byte
    of the previous code is left, and on a little-endian machine the code
    is the value of those [len] bytes, zero-extended. *)
Theorem setkeycode_stores_zero_extended (o : byte_order)
    (to_scalar : input_keymap_entry -> option N) (dev dev' : input_dev)
    (ke : input_keymap_entry) (old_keycode old_keycode' : N) :
  length (ke_scancode ke) = 32%nat ->
  sparse_keymap_setkeycode_all o to_scalar dev ke old_keycode
    = (0%Z, dev', old_keycode') ->
  exists keys pos key key',
    dev_keycode dev = Some keys /\
    sparse_keymap_locate_all to_scalar keys ke = Some (pos, key) /\
    dev_entries dev' !! pos = Some key' /\
    ke_len ke <= 4 /\
    store_bytes o 4 (key_code key')
      = take (N.to_nat (ke_len ke)) (ke_scancode ke)
        ++ replicate (4 - N.to_nat (ke_len ke)) x00 /\
    (o = LittleEndian ->
       key_code key' = le_value (take (N.to_nat (ke_len ke)) (ke_scancode ke)) /\
       key_code key' < 256 ^ ke_len ke).
Proof.
  intros Hsc Hset.
  destruct (setkeycode_all_outcome o to_scalar dev ke old_keycode)
    as [ | | |keys pos key Hk Hl Hlen key' keys']; try discriminate.
  injection Hset as <- <-.
  change (N.of_nat sizeof_code) with 4 in Hlen.
  pose proof (setkeycode_entries o _ _ _ _ _ Hl) as [_ E].
  subst keys' key'.
  exists keys, pos, key, (overwrite_entry o ke (override_type ke key)).
  split; [done |]. split; [done |]. split; [exact E |]. split; [done |].
  destruct (overwrite_entry_code o ke (override_type ke key)) as [Hc L];
    [lia | lia |].
  rewrite Hc. split.
  - rewrite <- L at 1. apply store_bytes_load_bytes.
  - intros ->. cbn [load_bytes]. rewrite le_value_zeros.
    split; [done |].
    pose proof (le_value_bound (take (N.to_nat (ke_len ke)) (ke_scancode ke))) as B.
    rewrite length_take in B.
    replace (N.of_nat (N.to_nat (ke_len ke) `min` length (ke_scancode ke)))
      with (ke_len ke) in B by lia.
    done.
Qed.

Lemma setkeycode_stores_zero_extended_witness :
  length (ke_scancode request_one_byte) = 32%nat /\
  sparse_keymap_setkeycode_all LittleEndian linux_le example_dev
    request_one_byte 77
  = (0%Z, (sparse_keymap_setkeycode_all LittleEndian linux_le example_dev
             request_one_byte 77).1.2, 5) /\
  exists keys pos key key',
    dev_keycode example_dev = Some keys /\
    sparse_keymap_locate_all linux_le keys request_one_byte = Some (pos, key) /\
    dev_entries (sparse_keymap_setkeycode_all LittleEndian linux_le example_dev
                   request_one_byte 77).1.2 !! pos = Some key' /\
    ke_len request_one_byte <= 4 /\
    store_bytes LittleEndian 4 (key_code key')
      = take (N.to_nat (ke_len request_one_byte)) (ke_scancode request_one_byte)
        ++ replicate (4 - N.to_nat (ke_len request_one_byte)) x00 /\
    (LittleEndian = LittleEndian ->
       key_code key'
       = le_value (take (N.to_nat (ke_len request_one_byte))
                        (ke_scancode request_one_byte)) /\
       key_code key' < 256 ^ ke_len request_one_byte).
Proof.
  split; [reflexivity |]. split; [reflexivity |].
  apply (setkeycode_stores_zero_extended LittleEndian linux_le example_dev _
           request_one_byte 77 5); reflexivity.
Defined.

(** ** The active-keycode bitmap *)

Lemma from_keycode_Some (keys : list key_entry) (k : N) :
  is_Some (sparse_keymap_entry_from_keycode keys k) <->
  exists key, key ∈ keymap_entries keys /\ references k key.
Proof. apply entry_from_keycode_loop_Some. Qed.

Lemma test_bit_set_bit (n m b : N) :
  test_bit m (set_bit n b) = true <-> n = m \/ test_bit m b = true.
Proof. apply N.setbit_iff. Qed.

Lemma test_bit_clear_bit (n m b : N) :
  test_bit m (clear_bit n b) = true <-> test_bit m b = true /\ n <> m.
Proof. apply N.clearbit_iff. Qed.









(** The scenario: key code 0 for entry 0 returns the old key code 5 and
    makes the entry [Ignored]; bit 5 stays set, entry 1 still holds the
    key code.  Key code 0 for entry 1 then clears the bit. *)
Example scenario_shared_keycode :
  sparse_keymap_setkeycode_all LittleEndian linux_le example_dev
    request_reserve_0 77 = (0%Z, example_dev_1, 5) /\
  dev_entries example_dev_1 !! 0%nat
    = Some (mk_key_entry KE_IGNORE 0x1122 0) /\
  test_bit 5 (dev_keybit example_dev_1) = true /\
  sparse_keymap_setkeycode_all LittleEndian linux_le example_dev_1
    request_reserve_1 77 = (0%Z, example_dev_2, 5) /\
  test_bit 5 (dev_keybit example_dev_2) = false /\
  dev_keybit example_dev_2 = 0.
Proof. repeat split. Qed.

(** ** Lookup by scancode *)

Lemma locate_by_scancode (to_scalar : input_keymap_entry -> option N)
    (keys : list key_entry) (ke : input_keymap_entry) (pos : nat)
    (key : key_entry) :
  by_index ke = false ->
  sparse_keymap_locate_all to_scalar keys ke = Some (pos, key) <->
  exists code, to_scalar ke = Some code /\
               first_at (fun k => key_code k = code) (keymap_entries keys) pos key.
Proof.
  intros Hb. unfold sparse_keymap_locate_all. rewrite Hb.
  destruct (to_scalar ke) as [c|].
  - unfold sparse_keymap_entry_from_scancode_all.
    rewrite entry_from_scancode_loop_Some. split.
    + intros (i & -> & H). exists c. done.
    + intros (c' & [= <-] & H). exists pos. done.
  - split; [done | intros (c & H & _); done].
Qed.

(** C6: the lookup by scancode returns the first entry, in keymap order,
    whose code is the one looked up.  With the same code at [i < j], the
    lookup of that code resolves to [i] when no earlier entry has the code
    (and never to a position after [i]); no lookup by scancode resolves to
    [j]. *)
Theorem scancode_lookup_first_match (to_scalar : input_keymap_entry -> option N)
    (keys : list key_entry) (i j : nat) (key_i key_j : key_entry) :
  keymap_entries keys !! i = Some key_i ->
  keymap_entries keys !! j = Some key_j ->
  (i < j)%nat ->
  key_code key_i = key_code key_j ->
  (forall ke, by_index ke = false -> to_scalar ke = Some (key_code key_i) ->
     (exists pos key,
        sparse_keymap_locate_all to_scalar keys ke = Some (pos, key) /\
        (pos <= i)%nat /\ key_code key = key_code key_i) /\
     ((forall h key_h, (h < i)%nat -> keymap_entries keys !! h = Some key_h ->
                       key_code key_h <> key_code key_i) ->
      sparse_keymap_locate_all to_scalar keys ke = Some (i, key_i))) /\
  (forall ke key, by_index ke = false ->
     sparse_keymap_locate_all to_scalar keys ke <> Some (j, key)).
Proof.
  intros Hi Hj Hlt Hcode. split.
  - intros ke Hb Hs. split.
    + unfold sparse_keymap_locate_all. rewrite Hb, Hs.
      unfold sparse_keymap_entry_from_scancode_all.
      destruct (entry_from_scancode_loop keys 0 (key_code key_i))
        as [[pos key]|] eqn:E.
      * apply entry_from_scancode_loop_Some in E as (p & -> & Hp & Hc & Hfirst).
        exists p, key. split; [done |]. split; [| done].
        destruct (decide (p <= i)%nat) as [|Hgt]; [done |].
        exfalso. apply (Hfirst i key_i); [lia | done | done].
      * exfalso.
        apply (proj1 (entry_from_scancode_loop_None keys 0 (key_code key_i)) E key_i);
          [| done].
        apply list_elem_of_lookup. eauto.
    + intros Hfirst. apply locate_by_scancode; [done |].
      exists (key_code key_i). split; [done |]. split; [done |]. split; [done |].
      intros h key_h Hh Hkh. exact (Hfirst h key_h Hh Hkh).
  - intros ke key Hb Hloc.
    apply locate_by_scancode in Hloc as (c & _ & Hp & Hc & Hfirst); [| done].
    assert (key = key_j) as -> by congruence.
    apply (Hfirst i key_i Hlt Hi). congruence.
Qed.

Lemma scancode_lookup_first_match_witness :
  keymap_entries duplicate_keymap !! 1%nat
    = Some (mk_key_entry KE_KEY 0xe0 30) /\
  keymap_entries duplicate_keymap !! 2%nat
    = Some (mk_key_entry KE_IGNORE 0xe0 0) /\
  (1 < 2)%nat /\
  0xe0 = 0xe0 /\
  ((forall ke, by_index ke = false -> linux_le ke = Some 0xe0 ->
      (exists pos key,
         sparse_keymap_locate_all linux_le duplicate_keymap ke = Some (pos, key) /\
         (pos <= 1)%nat /\ key_code key = 0xe0) /\
      ((forall h key_h, (h < 1)%nat ->
                        keymap_entries duplicate_keymap !! h = Some key_h ->
                        key_code key_h <> 0xe0) ->
       sparse_keymap_locate_all linux_le duplicate_keymap ke
         = Some (1%nat, mk_key_entry KE_KEY 0xe0 30))) /\
   (forall ke key, by_index ke = false ->
      sparse_keymap_locate_all linux_le duplicate_keymap ke <> Some (2%nat, key))).
Proof.
  split; [reflexivity |]. split; [reflexivity |]. split; [lia |].
  split; [reflexivity |].
  apply (scancode_lookup_first_match linux_le duplicate_keymap 1 2
           (mk_key_entry KE_KEY 0xe0 30)
           (mk_key_entry KE_IGNORE 0xe0 0));
    [reflexivity | reflexivity | lia | reflexivity].
Defined.

Example lookup_e0_resolves_to_1 :
  sparse_keymap_locate_all linux_le duplicate_keymap request_lookup_e0
  = Some (1%nat, mk_key_entry KE_KEY 0xe0 30).
Proof. reflexivity. Qed.

(** C5 (as the code has it): a lookup by scancode compares values, not
    lengths: it resolves to the first entry whose 32-bit code equals the
    scalar the locator converts to.  With the conversion of the input
    core a locator of 1, 2 or 4 bytes stands for its value and finds the
    entry with that code, and a locator of any other length finds
    nothing. *)
Theorem locate_by_scancode_compares_values (o : byte_order)
    (to_scalar : input_keymap_entry -> option N)
    (keys : list key_entry) (ke : input_keymap_entry) (pos : nat)
    (key : key_entry) :
  by_index ke = false ->
  (sparse_keymap_locate_all to_scalar keys ke = Some (pos, key) <->
   exists code, to_scalar ke = Some code /\
                first_at (fun k => key_code k = code) (keymap_entries keys) pos key) /\
  (sparse_keymap_locate_all (linux_scancode_to_scalar o) keys ke = Some (pos, key) <->
   (ke_len ke = 1 \/ ke_len ke = 2 \/ ke_len ke = 4) /\
   first_at (fun k => key_code k
                      = load_bytes o (take (N.to_nat (ke_len ke)) (ke_scancode ke)))
            (keymap_entries keys) pos key).
Proof.
  intros Hb. split; [now apply locate_by_scancode |].
  rewrite (locate_by_scancode _ _ _ _ _ Hb). unfold linux_scancode_to_scalar.
  split.
  - intros (c & Hc & Hf).
    destruct (ke_len ke) as [|[[[]|[]|]|[[]|[]|]|]]; try discriminate;
      injection Hc as <-; split; try done; tauto.
  - intros ([-> | [-> | ->]] & Hf); eexists; (split; [reflexivity | exact Hf]).
Qed.

Lemma locate_by_scancode_compares_values_witness :
  by_index request_two_byte_lookup = false /\
  ((sparse_keymap_locate_all linux_le example_keymap request_two_byte_lookup
    = Some (0%nat, mk_key_entry KE_KEY 0x1122 5) <->
    exists code, linux_le request_two_byte_lookup = Some code /\
                 first_at (fun k => key_code k = code) (keymap_entries example_keymap)
                          0 (mk_key_entry KE_KEY 0x1122 5)) /\
   (sparse_keymap_locate_all (linux_scancode_to_scalar LittleEndian) example_keymap
      request_two_byte_lookup
    = Some (0%nat, mk_key_entry KE_KEY 0x1122 5) <->
    (ke_len request_two_byte_lookup = 1 \/ ke_len request_two_byte_lookup = 2 \/
     ke_len request_two_byte_lookup = 4) /\
    first_at (fun k => key_code k
                       = load_bytes LittleEndian
                           (take (N.to_nat (ke_len request_two_byte_lookup))
                                 (ke_scancode request_two_byte_lookup)))
             (keymap_entries example_keymap) 0
             (mk_key_entry KE_KEY 0x1122 5))).
Proof.
  split; [reflexivity |].
  apply (locate_by_scancode_compares_values LittleEndian linux_le example_keymap
           request_two_byte_lookup 0
           (mk_key_entry KE_KEY 0x1122 5)).
  reflexivity.
Defined.

(** C5, counterexample: a locator of two bytes finds entry 0, whose
    scancode has the four bytes that get reports for it; the two stand
    for the same number, [0x1122]. *)
Lemma two_byte_locator_matches_four_byte_entry :
  by_index request_two_byte_lookup = false /\
  ke_len request_two_byte_lookup = 2 /\
  sparse_keymap_locate_all linux_le example_keymap request_two_byte_lookup
    = Some (0%nat, mk_key_entry KE_KEY 0x1122 5) /\
  ke_len (sparse_keymap_getkeycode_all LittleEndian linux_le example_dev
            (request_by_index 0 [] 0)).2 = 4 /\
  take 4 (ke_scancode (sparse_keymap_getkeycode_all LittleEndian linux_le
                         example_dev (request_by_index 0 [] 0)).2)
    = [x22; x11; x00; x00] /\
  take 2 (ke_scancode request_two_byte_lookup) = [x22; x11] /\
  ke_len request_two_byte_lookup
    <> ke_len (sparse_keymap_getkeycode_all LittleEndian linux_le example_dev
                 (request_by_index 0 [] 0)).2.
Proof. repeat split. discriminate. Qed.

(** ** The client *)

(** C8, as the code runs: with [-h] alone the help goes to standard
    output, then, no action having been asked for, once more to standard
    error, and the process ends with status 1. *)
Theorem main_help_only (o : byte_order) (W : Type)
    (sys_open : string -> prog W Z) (sys_close : Z -> prog W unit)
    (ioctl_get : Z -> input_keymap_entry -> prog W ioctl_result)
    (key_names : list (N * string)) (set_keycode : Z -> string -> prog W unit)
    (ke0 : input_keymap_entry) (scancode0 optarg : string) (w : W) :
  main o W sys_open sys_close ioctl_get key_names set_keycode ke0 scancode0
       {| cl_options := [("h"%char, optarg)]; cl_operands_left := false |} w
  = ([Print Stdout usage_text; Flush Stdout;
      Print Stderr usage_text; Flush Stderr], Exited 1%Z) /\
  exit_status
    (main o W sys_open sys_close ioctl_get key_names set_keycode ke0 scancode0
          {| cl_options := [("h"%char, optarg)]; cl_operands_left := false |} w).2
  = 1%Z.
Proof. split; reflexivity. Qed.

(** ** Lookup by index and the enumeration *)

Lemma by_index_set_ke_keycode (ke : input_keymap_entry) (k : N) :
  by_index (set_ke_keycode ke k) = by_index ke.
Proof. reflexivity. Qed.

Lemma getkeycode_by_index (o : byte_order)
    (to_scalar : input_keymap_entry -> option N) (dev : input_dev)
    (ke : input_keymap_entry) :
  by_index ke = true -> ke_index ke < 2 ^ 32 ->
  sparse_keymap_getkeycode_all o to_scalar dev ke =
  match dev_entries dev !! N.to_nat (ke_index ke) with
  | Some key =>
      (0%Z,
       {| ke_flags := ke_flags ke; ke_len := 4; ke_index := ke_index ke;
          ke_keycode := key_keycode key;
          ke_scancode := memcpy (ke_scancode ke)
                                (store_bytes o 4 (key_code key)) 4 |})
  | None => ((- EINVAL)%Z, ke)
  end.
Proof.
  intros Hb Hi. unfold sparse_keymap_getkeycode_all, dev_entries.
  destruct (dev_keycode dev) as [keys|]; [| done].
  unfold sparse_keymap_locate_all. rewrite Hb.
  unfold sparse_keymap_entry_by_index_all.
  rewrite entry_by_index_loop_spec by lia.
  rewrite N.sub_0_r.
  destruct (keymap_entries keys !! N.to_nat (ke_index ke)) as [key|]; [| done].
  rewrite by_index_set_ke_keycode, Hb. reflexivity.
Qed.

Lemma print_keymap_loop_engine (o : byte_order)
    (to_scalar : input_keymap_entry -> option N)
    (key_names : list (N * string)) (fd : Z) (dev : input_dev) (k : nat) :
  forall (i n : nat) (ke : input_keymap_entry) (scancode : string),
    (i + k)%nat = keymap_length dev ->
    (k < n)%nat ->
    N.of_nat i + N.of_nat n <= 0x10000 ->
    print_keymap_loop o input_dev (engine_ioctl_get o to_scalar) key_names
                      n fd (N.of_nat i) ke scancode dev
    = (imap (fun j => entry_row o key_names (i + j)) (drop i (dev_entries dev)),
       Running tt dev).
Proof.
  induction k as [|k IH]; intros i n ke scancode Hk Hn H16;
    (destruct n as [|n]; [lia |]).
  - cbn [print_keymap_loop]. unfold bind, engine_ioctl_get.
    rewrite (u16_small (N.of_nat i)) by lia.
    rewrite getkeycode_by_index;
      [| reflexivity | cbn [ke_index set_ke_index set_ke_flags]; lia].
    cbn [ke_index set_ke_index set_ke_flags].
    rewrite Nat2N.id.
    rewrite (lookup_ge_None_2 (dev_entries dev) i) by (unfold keymap_length in Hk; lia).
    rewrite (drop_ge (dev_entries dev) i) by (unfold keymap_length in Hk; lia).
    reflexivity.
  - cbn [print_keymap_loop]. unfold bind at 1. unfold engine_ioctl_get.
    rewrite (u16_small (N.of_nat i)) by lia.
    rewrite getkeycode_by_index;
      [| reflexivity | cbn [ke_index set_ke_index set_ke_flags]; lia].
    cbn [ke_index set_ke_index set_ke_flags].
    rewrite Nat2N.id.
    destruct (dev_entries dev !! i) as [key|] eqn:Hi;
      [| apply lookup_ge_None_1 in Hi; unfold keymap_length in Hk; lia].
    rewrite (drop_S _ _ _ Hi). cbn [imap].
    cbn [Z.ltb Z.compare io_ret io_ke ke_index ke_len ke_keycode ke_scancode app].
    rewrite N.eqb_refl. cbn [negb N.ltb N.compare Pos.compare Pos.compare_cont].
    unfold bind, emit.
    replace (N.of_nat i + 1) with (N.of_nat (S i)) by lia.
    rewrite IH by lia.
    cbn [app]. f_equal. f_equal.
    + unfold entry_row. rewrite Nat.add_0_r. f_equal.
      change (N.to_nat 4) with 4%nat. unfold scancode_to_string.
      change sizeof_code with 4%nat.
      rewrite memcpy_take by (rewrite length_store_bytes; lia).
      rewrite !(take_ge (store_bytes o 4 (key_code key)))
        by (rewrite length_store_bytes; lia).
      reflexivity.
    + apply imap_ext. intros j e _. unfold compose. f_equal. lia.
Qed.

(** The same loop when its bound ends it: [n] more iterations, all of
    them on entries of the keymap. *)
Lemma print_keymap_loop_engine_bound (o : byte_order)
    (to_scalar : input_keymap_entry -> option N)
    (key_names : list (N * string)) (fd : Z) (dev : input_dev) (n : nat) :
  forall (i : nat) (ke : input_keymap_entry) (scancode : string),
    (i + n <= keymap_length dev)%nat ->
    N.of_nat i + N.of_nat n <= 0x10000 ->
    print_keymap_loop o input_dev (engine_ioctl_get o to_scalar) key_names
                      n fd (N.of_nat i) ke scancode dev
    = (imap (fun j => entry_row o key_names (i + j))
            (take n (drop i (dev_entries dev))),
       Running tt dev).
Proof.
  induction n as [|n IH]; intros i ke scancode Hk H16.
  - reflexivity.
  - cbn [print_keymap_loop]. unfold bind at 1. unfold engine_ioctl_get.
    rewrite (u16_small (N.of_nat i)) by lia.
    rewrite getkeycode_by_index;
      [| reflexivity | cbn [ke_index set_ke_index set_ke_flags]; lia].
    cbn [ke_index set_ke_index set_ke_flags].
    rewrite Nat2N.id.
    destruct (dev_entries dev !! i) as [key|] eqn:Hi;
      [| apply lookup_ge_None_1 in Hi; unfold keymap_length in Hk; lia].
    rewrite (drop_S _ _ _ Hi). cbn [imap take].
    cbn [Z.ltb Z.compare io_ret io_ke ke_index ke_len ke_keycode ke_scancode app].
    rewrite N.eqb_refl. cbn [negb N.ltb N.compare Pos.compare Pos.compare_cont].
    unfold bind, emit.
    replace (N.of_nat i + 1) with (N.of_nat (S i)) by lia.
    rewrite IH by lia.
    cbn [app]. f_equal. f_equal.
    + unfold entry_row. rewrite Nat.add_0_r. f_equal.
      change (N.to_nat 4) with 4%nat. unfold scancode_to_string.
      change sizeof_code with 4%nat.
      rewrite memcpy_take by (rewrite length_store_bytes; lia).
      rewrite !(take_ge (store_bytes o 4 (key_code key)))
        by (rewrite length_store_bytes; lia).
      reflexivity.
    + apply imap_ext. intros j e _. unfold compose. f_equal. lia.
Qed.

Lemma print_keymap_dump (o : byte_order)
    (to_scalar : input_keymap_entry -> option N)
    (key_names : list (N * string)) (fd : Z) (dev : input_dev)
    (ke : input_keymap_entry) (scancode : string) :
  N.of_nat (keymap_length dev) < 0x10000 ->
  print_keymap_loop o input_dev (engine_ioctl_get o to_scalar) key_names
                    (N.to_nat 0x10000) fd 0 ke scancode dev
  = (imap (entry_row o key_names) (dev_entries dev), Running tt dev).
Proof.
  intros HN.
  pose proof (print_keymap_loop_engine o to_scalar key_names fd dev
                (keymap_length dev) 0 (N.to_nat 0x10000) ke scancode) as P.
  rewrite drop_0 in P. apply P.
  - reflexivity.
  - lia.
  - rewrite N2Nat.id. reflexivity.
Qed.

Lemma print_keymap_dump_bound (o : byte_order)
    (to_scalar : input_keymap_entry -> option N)
    (key_names : list (N * string)) (fd : Z) (dev : input_dev)
    (ke : input_keymap_entry) (scancode : string) :
  0x10000 <= N.of_nat (keymap_length dev) ->
  print_keymap_loop o input_dev (engine_ioctl_get o to_scalar) key_names
                    (N.to_nat 0x10000) fd 0 ke scancode dev
  = (imap (entry_row o key_names) (take (N.to_nat 0x10000) (dev_entries dev)),
     Running tt dev).
Proof.
  intros HN.
  pose proof (print_keymap_loop_engine_bound o to_scalar key_names fd dev
                (N.to_nat 0x10000) 0 ke scancode) as P.
  rewrite drop_0 in P. apply P.
  - lia.
  - rewrite N2Nat.id. apply N.le_refl.
Qed.

(** C7 (as the code has it): with a keymap of [N] entries, a get by
    index (the index is a 16-bit field) succeeds exactly for the indexes
    below [N] and answers [-EINVAL], leaving the request as it was, for
    the others.  So, when [N] is below 65536, the dump of the client,
    which asks for 0, 1, 2, ... up to 65535, prints the [N] rows of the
    keymap and stops at the failure for index [N]; when [N] is 65536 or
    more, no index it asks for fails, and it prints the first 65536 rows
    and stops at the bound of its loop. *)
Theorem getkeycode_by_index_range (o : byte_order)
    (to_scalar : input_keymap_entry -> option N) (dev : input_dev)
    (ke : input_keymap_entry) :
  by_index ke = true ->
  ke_index ke < 2 ^ 16 ->
  ((sparse_keymap_getkeycode_all o to_scalar dev ke).1 = 0%Z <->
   ke_index ke < N.of_nat (keymap_length dev)) /\
  (N.of_nat (keymap_length dev) <= ke_index ke ->
   sparse_keymap_getkeycode_all o to_scalar dev ke = ((- EINVAL)%Z, ke)) /\
  (ke_index ke < N.of_nat (keymap_length dev) ->
   ke_index (sparse_keymap_getkeycode_all o to_scalar dev ke).2 = ke_index ke /\
   exists key,
     dev_entries dev !! N.to_nat (ke_index ke) = Some key /\
     ke_keycode (sparse_keymap_getkeycode_all o to_scalar dev ke).2
       = key_keycode key) /\
  (N.of_nat (keymap_length dev) < 2 ^ 16 ->
   forall key_names fd ke0 scancode0,
     print_keymap_loop o input_dev (engine_ioctl_get o to_scalar) key_names
                       (N.to_nat 0x10000) fd 0 ke0 scancode0 dev
     = (imap (entry_row o key_names) (dev_entries dev), Running tt dev)) /\
  (2 ^ 16 <= N.of_nat (keymap_length dev) ->
   forall key_names fd ke0 scancode0,
     print_keymap_loop o input_dev (engine_ioctl_get o to_scalar) key_names
                       (N.to_nat 0x10000) fd 0 ke0 scancode0 dev
     = (imap (entry_row o key_names)
             (take (N.to_nat 0x10000) (dev_entries dev)),
        Running tt dev)).
Proof.
  intros Hb Hi.
  assert (ke_index ke < 2 ^ 32) as Hi32.
  { eapply N.lt_trans; [exact Hi | reflexivity]. }
  rewrite (getkeycode_by_index o to_scalar dev ke Hb Hi32).
  unfold keymap_length.
  destruct (dev_entries dev !! N.to_nat (ke_index ke)) as [key|] eqn:E.
  - pose proof (lookup_lt_Some _ _ _ E) as Hlt.
    split; [split; [lia | reflexivity] |]. split; [lia |].
    split; [intros _; split; [reflexivity | exists key; done] |].
    split; intros HN key_names fd ke0 scancode0;
      [now apply print_keymap_dump | now apply print_keymap_dump_bound].
  - pose proof (lookup_ge_None_1 _ _ E) as Hge.
    split; [split; [discriminate | lia] |]. split; [reflexivity |].
    split; [lia |].
    split; intros HN key_names fd ke0 scancode0;
      [now apply print_keymap_dump | now apply print_keymap_dump_bound].
Qed.

Lemma getkeycode_by_index_range_witness :
  by_index (request_by_index 3 [] 0) = true /\
  ke_index (request_by_index 3 [] 0) < 2 ^ 16 /\
  (((sparse_keymap_getkeycode_all LittleEndian linux_le example_dev
       (request_by_index 3 [] 0)).1 = 0%Z <->
    ke_index (request_by_index 3 [] 0) < N.of_nat (keymap_length example_dev)) /\
   (N.of_nat (keymap_length example_dev) <= ke_index (request_by_index 3 [] 0) ->
    sparse_keymap_getkeycode_all LittleEndian linux_le example_dev
      (request_by_index 3 [] 0) = ((- EINVAL)%Z, request_by_index 3 [] 0)) /\
   (ke_index (request_by_index 3 [] 0) < N.of_nat (keymap_length example_dev) ->
    ke_index (sparse_keymap_getkeycode_all LittleEndian linux_le example_dev
                (request_by_index 3 [] 0)).2
      = ke_index (request_by_index 3 [] 0) /\
    exists key,
      dev_entries example_dev !! N.to_nat (ke_index (request_by_index 3 [] 0))
        = Some key /\
      ke_keycode (sparse_keymap_getkeycode_all LittleEndian linux_le example_dev
                    (request_by_index 3 [] 0)).2 = key_keycode key) /\
   (N.of_nat (keymap_length example_dev) < 2 ^ 16 ->
    forall key_names fd ke0 scancode0,
      print_keymap_loop LittleEndian input_dev
        (engine_ioctl_get LittleEndian linux_le) key_names
        (N.to_nat 0x10000) fd 0 ke0 scancode0 example_dev
      = (imap (entry_row LittleEndian key_names) (dev_entries example_dev),
         Running tt example_dev)) /\
   (2 ^ 16 <= N.of_nat (keymap_length example_dev) ->
    forall key_names fd ke0 scancode0,
      print_keymap_loop LittleEndian input_dev
        (engine_ioctl_get LittleEndian linux_le) key_names
        (N.to_nat 0x10000) fd 0 ke0 scancode0 example_dev
      = (imap (entry_row LittleEndian key_names)
              (take (N.to_nat 0x10000) (dev_entries example_dev)),
         Running tt example_dev))).
Proof.
  split; [reflexivity |]. split; [reflexivity |].
  apply (getkeycode_by_index_range LittleEndian linux_le example_dev
           (request_by_index 3 [] 0)); reflexivity.
Defined.

Lemma keymap_entries_replicate (n : nat) (e : key_entry) (rest : list key_entry) :
  key_type e <> KE_END ->
  keymap_entries (replicate n e ++ rest) = replicate n e ++ keymap_entries rest.
Proof.
  intros He. induction n as [|n IH]; [reflexivity |].
  cbn [replicate app keymap_entries].
  destruct (Z.eqb_spec (key_type e) KE_END) as [E|_]; [done |].
  now rewrite IH.
Qed.

Lemma dev_entries_full_dev :
  dev_entries full_dev = replicate (N.to_nat 0x10000) (mk_key_entry KE_KEY 1 1).
Proof.
  unfold dev_entries, full_dev, full_keymap. cbn [dev_keycode].
  rewrite keymap_entries_replicate by discriminate.
  apply app_nil_r.
Qed.

(** C7, counterexample: with a keymap of 65536 entries every index the
    16-bit [index] field can hold is below the length, so every get by
    index succeeds; the dump prints all 65536 rows and its loop ends at
    its bound, 0x10000, without having met a failure.  Index 65536 itself
    cannot be asked for: as a 16-bit number it is 0. *)
Lemma print_keymap_full_keymap_meets_no_failure :
  N.of_nat (keymap_length full_dev) = 0x10000 /\
  u16 (N.of_nat (keymap_length full_dev)) = 0 /\
  (forall ke, by_index ke = true -> ke_index ke < 2 ^ 16 ->
     (sparse_keymap_getkeycode_all LittleEndian linux_le full_dev ke).1 = 0%Z) /\
  (forall key_names fd ke0 scancode0,
     print_keymap_loop LittleEndian input_dev
       (engine_ioctl_get LittleEndian linux_le) key_names
       (N.to_nat 0x10000) fd 0 ke0 scancode0 full_dev
     = (imap (entry_row LittleEndian key_names) (dev_entries full_dev),
        Running tt full_dev)).
Proof.
  assert (keymap_length full_dev = N.to_nat 0x10000) as HL.
  { unfold keymap_length. rewrite dev_entries_full_dev. apply length_replicate. }
  split; [rewrite HL; apply N2Nat.id |].
  split; [rewrite HL, N2Nat.id; reflexivity |]. split.
  - intros ke Hb Hi.
    assert (ke_index ke < 2 ^ 32) as Hi32
      by (eapply N.lt_trans; [exact Hi | reflexivity]).
    rewrite (getkeycode_by_index _ _ _ _ Hb Hi32), dev_entries_full_dev.
    rewrite lookup_replicate_2; [reflexivity |].
    change (2 ^ 16) with 0x10000 in Hi. lia.
  - intros key_names fd ke0 scancode0.
    rewrite print_keymap_dump_bound by (rewrite HL, N2Nat.id; apply N.le_refl).
    rewrite take_ge; [reflexivity |].
    rewrite dev_entries_full_dev, length_replicate. apply Nat.le_refl.
Qed.

Example example_dev_has_three_entries : keymap_length example_dev = 3%nat.
Proof. reflexivity. Qed.

(** * Further properties of the engine *)

(** ** The index a get by scancode reports *)

Lemma u16_u32 (x : N) : u16 (u32 x) = u16 x.
Proof.
  unfold u16, u32.
  rewrite (N.div_mod x (2 ^ 32)) at 2 by discriminate.
  rewrite N.add_comm.
  replace (2 ^ 32 * (x / 2 ^ 32)) with (2 ^ 16 * (x / 2 ^ 32) * 2 ^ 16) by lia.
  now rewrite N.Div0.mod_add.
Qed.

Lemma u16_add_u32 (x m : N) : u16 (u32 x + m) = u16 (x + m).
Proof.
  unfold u16 at 1 2.
  rewrite (N.Div0.add_mod (u32 x)), (N.Div0.add_mod x).
  fold (u16 (u32 x)) (u16 x). now rewrite u16_u32.
Qed.

Lemma get_key_index_loop_position (keys : list key_entry) (pos k : nat)
    (idx : N) (key : key_entry) :
  (pos <= k)%nat ->
  keymap_entries keys !! (k - pos)%nat = Some key ->
  u16 (get_key_index_loop keys pos k idx) = u16 (idx + N.of_nat (k - pos)).
Proof.
  revert pos idx. induction keys as [|e keys IH]; intros pos idx Hle; simpl; [done |].
  destruct (Z.eqb_spec (key_type e) KE_END) as [E|E]; [done |].
  destruct (Nat.eqb_spec pos k) as [->|Hne].
  - intros _. rewrite Nat.sub_diag, N.add_0_r. reflexivity.
  - replace (k - pos)%nat with (S (k - S pos)) by lia. simpl. intros Hk.
    rewrite (IH (S pos) _ ltac:(lia) Hk), u16_add_u32.
    f_equal. lia.
Qed.

Lemma memcpy_idem (dst src : list byte) (n : nat) :
  length src = n -> memcpy (memcpy dst src n) src n = memcpy dst src n.
Proof.
  intros H. unfold memcpy. f_equal.
  rewrite drop_app_length'; [done |]. rewrite length_take. lia.
Qed.

(** X1: a get by scancode reports, as [index], the position of the entry
    it found (modulo 2^16, the width of the field).  When that position
    fits the field, the response sent back with the by-index flag is
    answered with itself: the index names the entry the scancode found. *)
Theorem getkeycode_by_scancode_reports_position (o : byte_order)
    (to_scalar : input_keymap_entry -> option N) (dev : input_dev)
    (ke ke' : input_keymap_entry) :
  by_index ke = false ->
  sparse_keymap_getkeycode_all o to_scalar dev ke = (0%Z, ke') ->
  exists keys pos key,
    dev_keycode dev = Some keys /\
    sparse_keymap_locate_all to_scalar keys ke = Some (pos, key) /\
    ke_index ke' = u16 (N.of_nat pos) /\
    (N.of_nat pos < 2 ^ 16 ->
     ke_index ke' = N.of_nat pos /\
     sparse_keymap_getkeycode_all o to_scalar dev
       (set_ke_flags ke' INPUT_KEYMAP_BY_INDEX)
     = (0%Z, set_ke_flags ke' INPUT_KEYMAP_BY_INDEX)).
Proof.
  intros Hb Hget.
  unfold sparse_keymap_getkeycode_all in Hget.
  destruct (dev_keycode dev) as [keys|] eqn:Hk; [| discriminate].
  destruct (sparse_keymap_locate_all to_scalar keys ke) as [[pos key]|] eqn:Hl;
    [| discriminate].
  rewrite by_index_set_ke_keycode, Hb in Hget. cbn [negb] in Hget.
  injection Hget as <-.
  pose proof (locate_all_valid _ _ _ _ _ Hl) as Hpos.
  exists keys, pos, key. split; [done |]. split; [done |].
  assert (u16 (sparse_keymap_get_key_index keys pos) = u16 (N.of_nat pos)) as Hidx.
  { unfold sparse_keymap_get_key_index.
    rewrite (get_key_index_loop_position keys 0 pos 0 key);
      [| lia | now rewrite Nat.sub_0_r].
    now rewrite Nat.sub_0_r. }
  cbn [ke_index set_ke_scancode set_ke_len set_ke_index]. split; [exact Hidx |].
  intros H16.
  assert (u16 (N.of_nat pos) = N.of_nat pos) as Hsmall
    by (apply u16_small; exact H16).
  split; [now rewrite Hidx |].
  rewrite getkeycode_by_index; [| reflexivity |].
  - cbn [ke_index set_ke_flags set_ke_scancode set_ke_len set_ke_index
         ke_scancode ke_flags set_ke_keycode].
    rewrite Hidx, Hsmall, Nat2N.id. unfold dev_entries. rewrite Hk, Hpos.
    unfold set_ke_flags, set_ke_scancode, set_ke_len, set_ke_index, set_ke_keycode.
    cbn [ke_flags ke_len ke_index ke_keycode ke_scancode].
    change sizeof_code with 4%nat. change (N.of_nat 4) with 4.
    rewrite memcpy_idem by apply length_store_bytes. reflexivity.
  - cbn [ke_index set_ke_flags set_ke_scancode set_ke_len set_ke_index].
    rewrite Hidx, Hsmall. eapply N.lt_trans; [exact H16 | reflexivity].
Qed.

Lemma getkeycode_by_scancode_reports_position_witness :
  by_index request_lookup_3344 = false /\
  sparse_keymap_getkeycode_all LittleEndian linux_le example_dev
    request_lookup_3344
  = (0%Z, (sparse_keymap_getkeycode_all LittleEndian linux_le example_dev
             request_lookup_3344).2) /\
  exists keys pos key,
    dev_keycode example_dev = Some keys /\
    sparse_keymap_locate_all linux_le keys request_lookup_3344 = Some (pos, key) /\
    ke_index (sparse_keymap_getkeycode_all LittleEndian linux_le example_dev
                request_lookup_3344).2 = u16 (N.of_nat pos) /\
    (N.of_nat pos < 2 ^ 16 ->
     ke_index (sparse_keymap_getkeycode_all LittleEndian linux_le example_dev
                 request_lookup_3344).2 = N.of_nat pos /\
     sparse_keymap_getkeycode_all LittleEndian linux_le example_dev
       (set_ke_flags (sparse_keymap_getkeycode_all LittleEndian linux_le
                        example_dev request_lookup_3344).2
                     INPUT_KEYMAP_BY_INDEX)
     = (0%Z, set_ke_flags (sparse_keymap_getkeycode_all LittleEndian linux_le
                             example_dev request_lookup_3344).2
                          INPUT_KEYMAP_BY_INDEX)).
Proof.
  split; [reflexivity |]. split; [reflexivity |].
  apply (getkeycode_by_scancode_reports_position LittleEndian linux_le
           example_dev request_lookup_3344); reflexivity.
Defined.

(** ** What a set leaves alone *)

Lemma locate_by_index (to_scalar : input_keymap_entry -> option N)
    (keys : list key_entry) (ke : input_keymap_entry) :
  by_index ke = true -> ke_index ke < 2 ^ 32 ->
  sparse_keymap_locate_all to_scalar keys ke =
  match keymap_entries keys !! N.to_nat (ke_index ke) with
  | Some key => Some (N.to_nat (ke_index ke), key)
  | None => None
  end.
Proof.
  intros Hb Hi. unfold sparse_keymap_locate_all. rewrite Hb.
  unfold sparse_keymap_entry_by_index_all.
  rewrite entry_by_index_loop_spec by lia.
  now rewrite N.sub_0_r.
Qed.


(** The bits [update_keybit] can change. *)
Lemma update_keybit_other_bits (keys : list key_entry) (old_type : Z)
    (old_keycode : N) (ke : input_keymap_entry) (key : key_entry)
    (keybit k : N) :
  k <> old_keycode -> k <> ke_keycode ke ->
  test_bit k (update_keybit keys old_type old_keycode ke key keybit)
  = test_bit k keybit.
Proof.
  intros H1 H2. unfold update_keybit, test_bit, set_bit, clear_bit.
  destruct (Z.eqb old_type KE_KEY), (Z.eqb (key_type key) KE_KEY),
    (sparse_keymap_entry_from_keycode keys old_keycode);
    rewrite ?N.setbit_neq, ?N.clearbit_neq, ?N.setbit_neq, ?N.clearbit_neq
      by congruence; reflexivity.
Qed.

(** X3: a set that succeeds changes no bit of [dev->keybit] other than
    those of the entry's old key code and of the new key code, whatever
    the bitmap held before. *)
Theorem setkeycode_keybit_frame (o : byte_order)
    (to_scalar : input_keymap_entry -> option N) (dev dev' : input_dev)
    (ke : input_keymap_entry) (old_keycode old_keycode' k : N) :
  sparse_keymap_setkeycode_all o to_scalar dev ke old_keycode
    = (0%Z, dev', old_keycode') ->
  k <> old_keycode' ->
  k <> ke_keycode ke ->
  test_bit k (dev_keybit dev') = test_bit k (dev_keybit dev).
Proof.
  intros Hset H1 H2.
  destruct (setkeycode_all_outcome o to_scalar dev ke old_keycode)
    as [ | | |keys pos key Hk Hl Hlen key' keys']; try discriminate.
  injection Hset as <- <-. cbn [dev_keybit].
  now apply update_keybit_other_bits.
Qed.

(** X4: a set that neither starts from a [Key] entry nor ends in one (a
    switch entry, whose type it keeps, or an [Ignored] entry given key
    code 0) leaves [dev->keybit] as it was. *)
Theorem setkeycode_without_key_keeps_keybit (o : byte_order)
    (to_scalar : input_keymap_entry -> option N) (dev : input_dev)
    (keys : list key_entry) (ke : input_keymap_entry) (pos : nat)
    (key : key_entry) (old_keycode : N) :
  dev_keycode dev = Some keys ->
  sparse_keymap_locate_all to_scalar keys ke = Some (pos, key) ->
  ke_len ke <= 4 ->
  key_type key <> KE_KEY ->
  (key_type key = KE_IGNORE -> ke_keycode ke = 0) ->
  exists dev' key',
    sparse_keymap_setkeycode_all o to_scalar dev ke old_keycode
      = (0%Z, dev', key_keycode key) /\
    dev_keybit dev' = dev_keybit dev /\
    dev_entries dev' !! pos = Some key' /\
    key_type key' = key_type key.
Proof.
  intros Hk Hl Hlen Ht Hi.
  pose proof (setkeycode_entries o _ _ _ _ _ Hl) as [_ E].
  unfold sparse_keymap_setkeycode_all. rewrite Hk, Hl.
  change (N.of_nat sizeof_code) with 4.
  destruct (N.ltb_spec 4 (ke_len ke)) as [Hlt|_]; [lia |].
  eexists. eexists. split; [reflexivity |]. cbn [dev_keybit].
  assert (key_type (override_type ke key) = key_type key) as Hty.
  { unfold override_type, KEY_RESERVED.
    destruct (N.eqb_spec (ke_keycode ke) 0) as [K|K];
      destruct (Z.eqb_spec (key_type key) KE_KEY) as [T1|T1];
      destruct (Z.eqb_spec (key_type key) KE_IGNORE) as [T2|T2];
      simpl; try done; tauto. }
  split; [| split; [exact E | now rewrite overwrite_entry_type]].
  unfold update_keybit. rewrite overwrite_entry_type, Hty.
  now destruct (Z.eqb_spec (key_type key) KE_KEY).
Qed.

Lemma update_keybit_new_bit (keys' : list key_entry) (old_type : Z)
    (old_keycode : N) (ke : input_keymap_entry) (key' : key_entry) (keybit : N) :
  key' ∈ keymap_entries keys' ->
  key_type key' = KE_KEY ->
  key_keycode key' = u16 (ke_keycode ke) ->
  old_keycode < 2 ^ 16 ->
  test_bit (ke_keycode ke)
    (update_keybit keys' old_type old_keycode ke key' keybit) = true.
Proof.
  intros Hin Ht Hkc Hold. unfold update_keybit.
  rewrite Ht, Z.eqb_refl.
  destruct (sparse_keymap_entry_from_keycode keys' old_keycode) as [f|] eqn:F.
  - apply test_bit_set_bit. now left.
  - apply test_bit_clear_bit. split; [apply test_bit_set_bit; now left |].
    intros ->. rewrite (u16_small _ Hold) in Hkc.
    assert (is_Some (sparse_keymap_entry_from_keycode keys' (ke_keycode ke))) as [x Hx].
    { apply from_keycode_Some. exists key'. done. }
    congruence.
Qed.

(** X5: whenever the entry is of type [Key] after a set (it was [Key] or
    [Ignored] and the new key code is not 0), the bit of the new key code
    is set afterwards, whatever the bitmap held before. *)
Theorem setkeycode_sets_new_bit (o : byte_order)
    (to_scalar : input_keymap_entry -> option N) (dev : input_dev)
    (keys : list key_entry) (ke : input_keymap_entry) (pos : nat)
    (key : key_entry) (old_keycode : N) :
  dev_keycode dev = Some keys ->
  sparse_keymap_locate_all to_scalar keys ke = Some (pos, key) ->
  ke_len ke <= 4 ->
  ke_keycode ke <> 0 ->
  key_type key = KE_KEY \/ key_type key = KE_IGNORE ->
  exists dev' key',
    sparse_keymap_setkeycode_all o to_scalar dev ke old_keycode
      = (0%Z, dev', key_keycode key) /\
    dev_entries dev' !! pos = Some key' /\
    key_type key' = KE_KEY /\
    test_bit (ke_keycode ke) (dev_keybit dev') = true.
Proof.
  intros Hk Hl Hlen HK Ht.
  pose proof (setkeycode_entries o _ _ _ _ _ Hl) as [_ E].
  unfold sparse_keymap_setkeycode_all. rewrite Hk, Hl.
  change (N.of_nat sizeof_code) with 4.
  destruct (N.ltb_spec 4 (ke_len ke)) as [Hlt|_]; [lia |].
  eexists. eexists. split; [reflexivity |]. cbn [dev_keybit].
  assert (key_type (overwrite_entry o ke (override_type ke key)) = KE_KEY) as Hty.
  { rewrite overwrite_entry_type. unfold override_type, KEY_RESERVED.
    destruct (N.eqb_spec (ke_keycode ke) 0) as [K|K]; [done |].
    destruct (Z.eqb_spec (key_type key) KE_IGNORE) as [T2|T2]; [done |].
    destruct Ht; done. }
  split; [exact E |]. split; [exact Hty |].
  apply update_keybit_new_bit;
    [| exact Hty | reflexivity | apply key_keycode_lt].
  apply list_elem_of_lookup. eauto.
Qed.

(** ** Reading back what was set *)

(** X6: after a set by index that succeeds, a get with the same request
    finds the same entry and answers with the low 16 bits of the new key
    code (the entry's [keycode] field holds no more), length 4 and the
    request's scancode bytes followed by zero bytes. *)
Theorem setkeycode_then_getkeycode (o : byte_order)
    (to_scalar : input_keymap_entry -> option N) (dev dev' : input_dev)
    (ke : input_keymap_entry) (old_keycode old_keycode' : N) :
  by_index ke = true ->
  ke_index ke < 2 ^ 16 ->
  length (ke_scancode ke) = 32%nat ->
  sparse_keymap_setkeycode_all o to_scalar dev ke old_keycode
    = (0%Z, dev', old_keycode') ->
  exists ke',
    sparse_keymap_getkeycode_all o to_scalar dev' ke = (0%Z, ke') /\
    ke_keycode ke' = u16 (ke_keycode ke) /\
    ke_index ke' = ke_index ke /\
    ke_len ke' = 4 /\
    take 4 (ke_scancode ke')
      = take (N.to_nat (ke_len ke)) (ke_scancode ke)
        ++ replicate (4 - N.to_nat (ke_len ke)) x00 /\
    drop 4 (ke_scancode ke') = drop 4 (ke_scancode ke).
Proof.
  intros Hb Hi Hsc Hset.
  assert (ke_index ke < 2 ^ 32) as Hi32
    by (eapply N.lt_trans; [exact Hi | reflexivity]).
  destruct (setkeycode_all_outcome o to_scalar dev ke old_keycode)
    as [ | | |keys pos key Hk Hl Hlen key' keys']; try discriminate.
  injection Hset as <- <-.
  change (N.of_nat sizeof_code) with 4 in Hlen.
  pose proof (setkeycode_entries o _ _ _ _ _ Hl) as [_ E].
  rewrite (locate_by_index _ _ _ Hb Hi32) in Hl.
  destruct (keymap_entries keys !! N.to_nat (ke_index ke)) as [k0|] eqn:E0;
    [| discriminate].
  injection Hl as <- <-.
  rewrite (getkeycode_by_index _ _ _ _ Hb Hi32).
  unfold dev_entries. cbn [dev_keycode]. fold key' in E. fold keys' in E.
  rewrite E. eexists. split; [reflexivity |].
  cbn [ke_keycode ke_index ke_len ke_scancode].
  split; [reflexivity |]. split; [reflexivity |]. split; [reflexivity |].
  split; [| apply memcpy_drop; rewrite length_store_bytes; lia].
  rewrite memcpy_take by (rewrite length_store_bytes; lia).
  rewrite take_ge by (rewrite length_store_bytes; lia).
  destruct (overwrite_entry_code o ke (override_type ke k0)) as [Hc L];
    [lia | lia |].
  unfold key'. rewrite Hc. rewrite <- L at 1. apply store_bytes_load_bytes.
Qed.

Lemma overwrite_entry_ext (o : byte_order) (ke : input_keymap_entry)
    (key1 key2 : key_entry) :
  key_type key1 = key_type key2 ->
  overwrite_entry o ke key1 = overwrite_entry o ke key2.
Proof.
  intros H. unfold overwrite_entry, set_key_code, set_key_keycode.
  cbn [key_type key_code key_keycode]. now rewrite H.
Qed.

(** The type [override_type] gives is one it keeps. *)
Lemma override_type_settled (ke : input_keymap_entry) (key key' : key_entry) :
  key_type key' = key_type (override_type ke key) ->
  key_type (override_type ke key') = key_type (override_type ke key).
Proof.
  unfold override_type, KEY_RESERVED.
  destruct (N.eqb_spec (ke_keycode ke) 0) as [K|K];
    destruct (Z.eqb_spec (key_type key) KE_KEY) as [T1|T1];
    destruct (Z.eqb_spec (key_type key) KE_IGNORE) as [T2|T2];
    cbn; intros H; rewrite ?H; cbn; try done;
    repeat match goal with
           | |- context [Z.eqb ?a ?b] => destruct (Z.eqb_spec a b)
           end; cbn; try congruence.
Qed.

(** X7: a set by index is idempotent for a new key code that fits the
    entry's 16-bit [keycode] field: sent a second time, the same request
    succeeds again, leaves the device as the first call left it and
    reports the new key code as the old one.  For any new key code the
    second call succeeds, reports the low 16 bits of the new key code as
    the old one and leaves the keymap as the first call left it. *)
Theorem setkeycode_by_index_idempotent (o : byte_order)
    (to_scalar : input_keymap_entry -> option N) (dev dev' : input_dev)
    (ke : input_keymap_entry) (old_keycode old_keycode' old_keycode'' : N) :
  by_index ke = true ->
  ke_index ke < 2 ^ 16 ->
  sparse_keymap_setkeycode_all o to_scalar dev ke old_keycode
    = (0%Z, dev', old_keycode') ->
  (exists dev'',
     sparse_keymap_setkeycode_all o to_scalar dev' ke old_keycode''
       = (0%Z, dev'', u16 (ke_keycode ke)) /\
     dev_keycode dev'' = dev_keycode dev') /\
  (ke_keycode ke < 2 ^ 16 ->
   sparse_keymap_setkeycode_all o to_scalar dev' ke old_keycode''
     = (0%Z, dev', ke_keycode ke)).
Proof.
  intros Hb Hi Hset.
  assert (ke_index ke < 2 ^ 32) as Hi32
    by (eapply N.lt_trans; [exact Hi | reflexivity]).
  destruct (setkeycode_all_outcome o to_scalar dev ke old_keycode)
    as [ | | |keys pos key Hk Hl Hlen key' keys']; try discriminate.
  injection Hset as <- <-.
  pose proof (setkeycode_entries o _ _ _ _ _ Hl) as [E0 E].
  fold key' in E, E0. fold keys' in E, E0.
  pose proof (located_entry_not_END _ _ _ _ _ Hl) as (Hkp & _ & _).
  assert (pos = N.to_nat (ke_index ke)) as Hpos.
  { rewrite (locate_by_index _ _ _ Hb Hi32) in Hl.
    destruct (keymap_entries keys !! N.to_nat (ke_index ke)); [| discriminate].
    now injection Hl as <- _. }
  assert (key_keycode key' = u16 (ke_keycode ke)) as Hkc
    by apply overwrite_entry_keycode.
  set (kb := update_keybit keys' (key_type key) (key_keycode key) ke key'
               (dev_keybit dev)).
  assert (sparse_keymap_setkeycode_all o to_scalar
            {| dev_keycode := Some keys'; dev_keybit := kb |} ke old_keycode''
          = (0%Z,
             {| dev_keycode := Some keys';
                dev_keybit := update_keybit keys' (key_type key')
                                (u16 (ke_keycode ke)) ke key' kb |},
             u16 (ke_keycode ke))) as Hsecond.
  { unfold sparse_keymap_setkeycode_all. cbn [dev_keycode dev_keybit].
    rewrite (locate_by_index _ _ _ Hb Hi32), <- Hpos, E.
    destruct (N.ltb_spec (N.of_nat sizeof_code) (ke_len ke)) as [Hlt|_]; [lia |].
    assert (overwrite_entry o ke (override_type ke key') = key') as Hfix.
    { unfold key'. apply overwrite_entry_ext.
      apply override_type_settled. apply overwrite_entry_type. }
    rewrite Hfix.
    assert (<[pos := key']> keys' = keys') as Hk'.
    { unfold keys'. apply list_insert_insert_eq. }
    rewrite Hk', Hkc. reflexivity. }
  rewrite Hsecond.
  split; [eexists; split; reflexivity |].
  intros Hfit. rewrite (u16_small _ Hfit) in *.
  f_equal. f_equal. f_equal.
  unfold update_keybit at 1.
  destruct (Z.eqb_spec (key_type key') KE_KEY) as [T'|T']; [| reflexivity].
  assert (test_bit (ke_keycode ke) kb = true) as Hbit.
  { apply update_keybit_new_bit;
      [| done | now rewrite u16_small | apply key_keycode_lt].
    apply list_elem_of_lookup. eauto. }
  assert (is_Some (sparse_keymap_entry_from_keycode keys' (ke_keycode ke)))
    as [f Hf].
  { apply from_keycode_Some. exists key'. split; [| done].
    apply list_elem_of_lookup. eauto. }
  rewrite Hf. unfold set_bit, clear_bit, test_bit in *.
  apply N.bits_inj. intros m.
  rewrite !N.setbit_eqb, N.clearbit_eqb.
  destruct (N.eqb_spec (ke_keycode ke) m) as [<-|Hm]; cbn.
  - now rewrite Hbit.
  - now rewrite andb_true_r.
Qed.

(** ** The properties above on the example device *)


Lemma setkeycode_keybit_frame_witness :
  sparse_keymap_setkeycode_all LittleEndian linux_le example_dev
    request_remap_2 77 = (0%Z, example_dev_remapped, 0) /\
  5 <> 0 /\
  5 <> ke_keycode request_remap_2 /\
  test_bit 5 (dev_keybit example_dev_remapped) = test_bit 5 (dev_keybit example_dev).
Proof.
  split; [reflexivity |]. split; [discriminate |]. split; [discriminate |].
  apply (setkeycode_keybit_frame LittleEndian linux_le example_dev
           example_dev_remapped request_remap_2 77 0 5);
    [reflexivity | discriminate | discriminate].
Defined.

Lemma setkeycode_without_key_keeps_keybit_witness :
  dev_keycode switch_dev = Some switch_keymap /\
  sparse_keymap_locate_all linux_le switch_keymap request_switch
    = Some (0%nat, mk_key_entry KE_SW 0x20 5) /\
  ke_len request_switch <= 4 /\
  KE_SW <> KE_KEY /\
  (KE_SW = KE_IGNORE -> ke_keycode request_switch = 0) /\
  exists dev' key',
    sparse_keymap_setkeycode_all LittleEndian linux_le switch_dev
      request_switch 77 = (0%Z, dev', 5) /\
    dev_keybit dev' = dev_keybit switch_dev /\
    dev_entries dev' !! 0%nat = Some key' /\
    key_type key' = KE_SW.
Proof.
  split; [reflexivity |]. split; [reflexivity |].
  split; [vm_compute; discriminate |]. split; [discriminate |].
  split; [discriminate |].
  apply (setkeycode_without_key_keeps_keybit LittleEndian linux_le switch_dev
           switch_keymap request_switch 0
           (mk_key_entry KE_SW 0x20 5) 77);
    [reflexivity | reflexivity | vm_compute; discriminate | discriminate
    | discriminate].
Defined.

Lemma setkeycode_sets_new_bit_witness :
  dev_keycode example_dev = Some example_keymap /\
  sparse_keymap_locate_all linux_le example_keymap request_remap_2
    = Some (2%nat, mk_key_entry KE_IGNORE 0x5566 0) /\
  ke_len request_remap_2 <= 4 /\
  ke_keycode request_remap_2 <> 0 /\
  (KE_IGNORE = KE_KEY \/ KE_IGNORE = KE_IGNORE) /\
  exists dev' key',
    sparse_keymap_setkeycode_all LittleEndian linux_le example_dev
      request_remap_2 77 = (0%Z, dev', 0) /\
    dev_entries dev' !! 2%nat = Some key' /\
    key_type key' = KE_KEY /\
    test_bit (ke_keycode request_remap_2) (dev_keybit dev') = true.
Proof.
  split; [reflexivity |]. split; [reflexivity |].
  split; [vm_compute; discriminate |]. split; [discriminate |].
  split; [right; reflexivity |].
  apply (setkeycode_sets_new_bit LittleEndian linux_le example_dev
           example_keymap request_remap_2 2
           (mk_key_entry KE_IGNORE 0x5566 0) 77);
    [reflexivity | reflexivity | vm_compute; discriminate | discriminate
    | right; reflexivity].
Defined.

Lemma setkeycode_then_getkeycode_witness :
  by_index request_remap_2 = true /\
  ke_index request_remap_2 < 2 ^ 16 /\
  length (ke_scancode request_remap_2) = 32%nat /\
  sparse_keymap_setkeycode_all LittleEndian linux_le example_dev
    request_remap_2 77 = (0%Z, example_dev_remapped, 0) /\
  exists ke',
    sparse_keymap_getkeycode_all LittleEndian linux_le example_dev_remapped
      request_remap_2 = (0%Z, ke') /\
    ke_keycode ke' = u16 (ke_keycode request_remap_2) /\
    ke_index ke' = ke_index request_remap_2 /\
    ke_len ke' = 4 /\
    take 4 (ke_scancode ke')
      = take (N.to_nat (ke_len request_remap_2)) (ke_scancode request_remap_2)
        ++ replicate (4 - N.to_nat (ke_len request_remap_2)) x00 /\
    drop 4 (ke_scancode ke') = drop 4 (ke_scancode request_remap_2).
Proof.
  split; [reflexivity |]. split; [reflexivity |]. split; [reflexivity |].
  split; [reflexivity |].
  apply (setkeycode_then_getkeycode LittleEndian linux_le example_dev
           example_dev_remapped request_remap_2 77 0); reflexivity.
Defined.

Lemma setkeycode_by_index_idempotent_witness :
  by_index request_remap_2 = true /\
  ke_index request_remap_2 < 2 ^ 16 /\
  sparse_keymap_setkeycode_all LittleEndian linux_le example_dev
    request_remap_2 77 = (0%Z, example_dev_remapped, 0) /\
  (exists dev'',
     sparse_keymap_setkeycode_all LittleEndian linux_le example_dev_remapped
       request_remap_2 99 = (0%Z, dev'', u16 (ke_keycode request_remap_2)) /\
     dev_keycode dev'' = dev_keycode example_dev_remapped) /\
  (ke_keycode request_remap_2 < 2 ^ 16 ->
   sparse_keymap_setkeycode_all LittleEndian linux_le example_dev_remapped
     request_remap_2 99
   = (0%Z, example_dev_remapped, ke_keycode request_remap_2)).
Proof.
  split; [reflexivity |]. split; [reflexivity |]. split; [reflexivity |].
  apply (setkeycode_by_index_idempotent LittleEndian linux_le example_dev
           example_dev_remapped request_remap_2 77 0 99); reflexivity.
Defined.

(** * Further properties of the client *)

(** ** The scancode column *)

Lemma length_concat_hex (bs : list byte) :
  String.length (String.concat EmptyString (map hex_byte bs))
  = (2 * length bs)%nat.
Proof.
  induction bs as [|b bs IH]; [reflexivity |].
  destruct bs as [|b' bs].
  - reflexivity.
  - change (String.concat EmptyString (map hex_byte (b :: b' :: bs)))
      with (String (hex_digit (Byte.to_N b / 16))
              (String (hex_digit (Byte.to_N b mod 16))
                 (String.concat EmptyString (map hex_byte (b' :: bs))))).
    cbn [String.length]. rewrite IH. cbn [length]. lia.
Qed.

(** Byte [j] of the little-endian form of [v] is the digit of weight
    [256 ^ j]. *)
Lemma le_bytes_digits (n : nat) (v : N) :
  le_bytes n v = map (fun j => byte_of_N (v / 256 ^ N.of_nat j)) (seq 0 n).
Proof.
  revert v. induction n as [|n IH]; intros v; [reflexivity |].
  cbn [le_bytes seq map]. f_equal.
  - change (N.of_nat 0) with 0. now rewrite N.pow_0_r, N.div_1_r.
  - rewrite IH, <- seq_shift, map_map. apply map_ext. intros j.
    rewrite N.Div0.div_div.
    replace (N.of_nat (S j)) with (N.succ (N.of_nat j)) by lia.
    now rewrite N.pow_succ_r'.
Qed.

Lemma map_reverse {A B} (f : A -> B) (l : list A) :
  map f (reverse l) = reverse (map f l).
Proof.
  induction l as [|x l IH]; [reflexivity |].
  cbn [map]. rewrite !reverse_cons, map_app, IH. reflexivity.
Qed.

(** X8: the scancode column reads most significant byte first on either
    byte order: a value stored in [n + 1] bytes is shown as the two
    hexadecimal digits of its byte of weight [256 ^ n], then those of
    the byte of weight [256 ^ (n - 1)], and so on down to the byte of
    weight 1, [2 (n + 1)] digits in all; a little-endian and a
    big-endian machine show the same text. *)
Theorem scancode_to_string_byte_order (o : byte_order) (out : string)
    (n : nat) (v : N) :
  scancode_to_string LittleEndian out (store_bytes LittleEndian n v) n
  = scancode_to_string BigEndian out (store_bytes BigEndian n v) n /\
  String.length (scancode_to_string o out (store_bytes o (S n) v) (S n))
  = (2 * S n)%nat /\
  scancode_to_string o out (store_bytes o (S n) v) (S n)
  = String.concat EmptyString
      (map (fun j => hex_byte (byte_of_N (v / 256 ^ N.of_nat j)))
           (reverse (seq 0 (S n)))).
Proof.
  split; [| split].
  - destruct n as [|n]; [reflexivity |].
    unfold scancode_to_string, store_bytes.
    rewrite !take_ge by (rewrite ?length_reverse, length_le_bytes; lia).
    reflexivity.
  - unfold scancode_to_string, store_bytes.
    destruct o;
      rewrite length_concat_hex, ?length_reverse, length_take, ?length_reverse,
        length_le_bytes; lia.
  - unfold scancode_to_string, store_bytes.
    assert (map hex_byte (reverse (le_bytes (S n) v))
            = map (fun j => hex_byte (byte_of_N (v / 256 ^ N.of_nat j)))
                  (reverse (seq 0 (S n)))) as H.
    { rewrite le_bytes_digits, <- map_reverse, map_map. reflexivity. }
    destruct o.
    + rewrite take_ge by (rewrite length_le_bytes; lia). now rewrite H.
    + rewrite take_ge by (rewrite length_reverse, length_le_bytes; lia).
      now rewrite H.
Qed.

(** ** The key names *)

(** X9: [get_key_by_code] answers with the name of the first entry of
    the table that has the code, and with nothing exactly when no entry
    has it. *)
Theorem get_key_by_code_first (key_names : list (N * string)) (code : N) :
  (forall name,
     get_key_by_code key_names code = Some name <->
     exists i, first_at (fun p => p.1 = code) key_names i (code, name)) /\
  (get_key_by_code key_names code = None <->
   forall p, p ∈ key_names -> p.1 <> code).
Proof.
  unfold get_key_by_code. induction key_names as [|[c nm] names [IH1 IH2]]; split.
  - intros name. split; [done | intros (i & H & _); done].
  - split; [| done]. intros _ p H. inversion H.
  - intros name. cbn [get_key_by_code_loop].
    destruct (N.eqb_spec c code) as [->|Hc].
    + split.
      * intros [= <-]. exists 0%nat. split; [done |]. split; [done |].
        intros j y Hj. lia.
      * intros ([|i] & Hi & _ & Hfirst).
        -- cbn in Hi. congruence.
        -- exfalso. apply (Hfirst 0%nat (code, nm)); [lia | done | done].
    + rewrite IH1. split.
      * intros (i & Hi & Hp & Hfirst). exists (S i).
        split; [done |]. split; [done |].
        intros [|j] y Hj; cbn.
        -- intros [= <-]. done.
        -- apply Hfirst. lia.
      * intros ([|i] & Hi & Hp & Hfirst).
        -- cbn in Hi. congruence.
        -- exists i. split; [done |]. split; [done |].
           intros j y Hj Hy. apply (Hfirst (S j)); [lia | done].
  - cbn [get_key_by_code_loop].
    destruct (N.eqb_spec c code) as [->|Hc].
    + split; [done |]. intros H. exfalso. apply (H (code, nm)); [left | done].
    + rewrite IH2. split.
      * intros H p Hin. apply elem_of_cons in Hin as [-> | Hin]; [done |].
        now apply H.
      * intros H p Hin. apply H. now right.
Qed.

(** ** The dump *)

Lemma bind_running {W A B} (m : prog W A) (f : A -> prog W B) (w w' : W)
    (out : list event) (b : B) :
  bind m f w = (out, Running b w') ->
  exists o1 a w1 o2,
    m w = (o1, Running a w1) /\ f a w1 = (o2, Running b w') /\ out = o1 ++ o2.
Proof.
  unfold bind. destruct (m w) as [o1 [a w1|s]]; [| discriminate].
  destruct (f a w1) as [o2 r] eqn:E. intros [= <- ->]. eauto 10.
Qed.



(** ** The option loop *)

Section MainLoop.

Variable o : byte_order.
Variable W : Type.
Variable sys_open : string -> prog W Z.
Variable sys_close : Z -> prog W unit.
Variable ioctl_get : Z -> input_keymap_entry -> prog W ioctl_result.
Variable key_names : list (N * string).
Variable set_keycode : Z -> string -> prog W unit.
Variable ke0 : input_keymap_entry.
Variable scancode0 : string.

Lemma main_loop_act (opts : list (ascii * string)) :
  forall (dev : Z) (act : bool) (w : W) (out : list event)
         (dev' : Z) (act' : bool) (w' : W),
    main_loop o W sys_open sys_close ioctl_get key_names set_keycode ke0
              scancode0 opts dev act w = (out, Running (dev', act') w') ->
    act' = true ->
    act = true \/
    exists opt optarg,
      (opt, optarg) ∈ opts /\ (opt = "p"%char \/ opt = "s"%char).
Proof.
  induction opts as [|[opt optarg] rest IH]; intros dev act w out dev' act' w'.
  - cbn. intros [= _ _ <- _] ->. now left.
  - cbn [main_loop].
    assert (forall d a w1 o1,
              main_loop o W sys_open sys_close ioctl_get key_names set_keycode
                        ke0 scancode0 rest d a w1 = (o1, Running (dev', act') w') ->
              act' = true ->
              a = true \/
              exists opt0 optarg0,
                (opt0, optarg0) ∈ (opt, optarg) :: rest /\
                (opt0 = "p"%char \/ opt0 = "s"%char)) as IH'.
    { intros d a w1 o1 H Ha. destruct (IH _ _ _ _ _ _ _ H Ha) as [?|(c & g & Hin & Hc)].
      - now left.
      - right. exists c, g. split; [now right | done]. }
    destruct (Ascii.eqb_spec opt "d") as [->|Hd].
    { intros H Ha. apply bind_running in H as (o1 & a1 & w1 & o2 & _ & H & _).
      apply bind_running in H as (o3 & fd & w2 & o4 & _ & H & _).
      destruct (fd <? 0)%Z.
      - apply bind_running in H as (? & ? & ? & ? & _ & H & _). discriminate.
      - exact (IH' _ _ _ _ H Ha). }
    destruct (Ascii.eqb_spec opt "p") as [->|Hp].
    { intros _ _. right. exists "p"%char, optarg. split; [left | now left]. }
    destruct (Ascii.eqb_spec opt "s") as [->|Hs].
    { intros _ _. right. exists "s"%char, optarg. split; [left | now right]. }
    destruct (Ascii.eqb_spec opt "h") as [->|Hh].
    { intros H Ha. apply bind_running in H as (o1 & a1 & w1 & o2 & _ & H & _).
      exact (IH' _ _ _ _ H Ha). }
    intros H Ha. apply bind_running in H as (o1 & a1 & w1 & o2 & H & _ & _).
    cbn in H. discriminate.
Qed.

(** X11: [main] comes to its [return 0] only when no operand is left on
    the command line and a [-p] or [-s] was among the options; every
    other run leaves through [exit]. *)
Theorem main_returns_zero_only_after_action (cl : command_line) (w w' : W)
    (out : list event) (status : Z) :
  main o W sys_open sys_close ioctl_get key_names set_keycode ke0 scancode0 cl w
    = (out, Running status w') ->
  status = 0%Z /\
  cl_operands_left cl = false /\
  exists opt optarg,
    (opt, optarg) ∈ cl_options cl /\ (opt = "p"%char \/ opt = "s"%char).
Proof.
  unfold main. intros H.
  apply bind_running in H as (o1 & [dev act] & w1 & o2 & Hloop & H & _).
  apply bind_running in H as (o3 & [] & w2 & o4 & Hu & H & _).
  cbn in H. injection H as _ <- _. split; [reflexivity |].
  cbn [snd] in Hu.
  destruct (cl_operands_left cl); [cbn in Hu; discriminate |].
  destruct act; [| cbn in Hu; discriminate].
  split; [reflexivity |].
  destruct (main_loop_act _ _ _ _ _ _ _ _ Hloop eq_refl) as [?|?]; done.
Qed.

End MainLoop.

(** ** The definition [-s] takes *)

Lemma concat_hex_cons (b : byte) (bs : list byte) :
  String.concat EmptyString (map hex_byte (b :: bs))
  = String (hex_digit (Byte.to_N b / 16))
      (String (hex_digit (Byte.to_N b mod 16))
         (String.concat EmptyString (map hex_byte bs))).
Proof. destruct bs; reflexivity. Qed.

Lemma concat_hex_cons_append (b : byte) (bs : list byte) (tail : string) :
  String.append (String.concat EmptyString (map hex_byte (b :: bs))) tail
  = String.append (hex_byte b)
      (String.append (String.concat EmptyString (map hex_byte bs)) tail).
Proof. rewrite concat_hex_cons. reflexivity. Qed.

Lemma hex_digit_not_equals (x : N) : x < 16 -> hex_digit x <> "="%char.
Proof.
  intros H.
  assert (x = 0 \/ x = 1 \/ x = 2 \/ x = 3 \/ x = 4 \/ x = 5 \/ x = 6 \/ x = 7 \/
          x = 8 \/ x = 9 \/ x = 10 \/ x = 11 \/ x = 12 \/ x = 13 \/ x = 14 \/
          x = 15) as Hx by lia.
  repeat (destruct Hx as [-> | Hx]; [discriminate |]). subst. discriminate.
Qed.

Lemma strchr_hex (bs : list byte) (tail : string) :
  strchr (String.append (String.concat EmptyString (map hex_byte bs))
                        (String "=" tail)) "="
  = Some (2 * length bs)%nat.
Proof.
  induction bs as [|b bs IH].
  - reflexivity.
  - rewrite concat_hex_cons. cbn [String.append strchr].
    pose proof (Byte.to_N_bounded b) as Hb.
    destruct (Ascii.eqb_spec (hex_digit (Byte.to_N b / 16)) "=") as [E|_].
    { exfalso. revert E. apply hex_digit_not_equals.
      apply N.Div0.div_lt_upper_bound. lia. }
    destruct (Ascii.eqb_spec (hex_digit (Byte.to_N b mod 16)) "=") as [E|_].
    { exfalso. revert E. apply hex_digit_not_equals.
      apply N.mod_upper_bound. discriminate. }
    rewrite IH. cbn [length]. f_equal. lia.
Qed.

Lemma string_drop_hex (bs : list byte) (tail : string) (i : nat) :
  string_drop (i * 2)
    (String.append (String.concat EmptyString (map hex_byte bs)) tail)
  = String.append (String.concat EmptyString (map hex_byte (drop i bs))) tail
  \/ (length bs < i)%nat.
Proof.
  revert bs. induction i as [|i IH]; intros bs.
  - left. now rewrite drop_0.
  - destruct bs as [|b bs]; [right; cbn; lia |].
    destruct (IH bs) as [E|E]; [left | right; cbn; lia].
    rewrite concat_hex_cons. cbn [Nat.mul Nat.add string_drop String.append drop].
    exact E.
Qed.

Lemma string_drop_past_hex (bs : list byte) (tail : string) :
  string_drop (S (2 * length bs))
    (String.append (String.concat EmptyString (map hex_byte bs))
                   (String "=" tail))
  = tail.
Proof.
  induction bs as [|b bs IH]; [reflexivity |].
  rewrite concat_hex_cons. cbn [length].
  replace (S (2 * S (length bs))) with (S (S (S (2 * length bs)))) by lia.
  cbn [String.append string_drop]. exact IH.
Qed.

Section Parse.

Variable W : Type.
Variable scan_hex : string -> option (N * nat).

(** What [sscanf] does with ["%02x%n"] on two digits written by
    ["%02x"]. *)
Hypothesis scan_hex_digits :
  forall (b : byte) (rest : string),
    scan_hex (String.append (hex_byte b) rest) = Some (Byte.to_N b, 2%nat).

Lemma scan_hex_at (bs : list byte) (tail : string) (i : nat) (b : byte) :
  bs !! i = Some b ->
  scan_hex (string_drop (i * 2)
              (String.append (String.concat EmptyString (map hex_byte bs)) tail))
  = Some (Byte.to_N b, 2%nat).
Proof.
  intros Hb.
  destruct (string_drop_hex bs tail i) as [->|Hlt];
    [| apply lookup_lt_Some in Hb; lia].
  rewrite (drop_S _ _ _ Hb), concat_hex_cons_append.
  apply scan_hex_digits.
Qed.

Lemma scancode_loop_forward (bs : list byte) (tail : string) (w : W) (n : nat) :
  forall (i : nat) (scancode : list byte),
    (i + n)%nat = length bs ->
    (length bs <= length scancode)%nat ->
    set_keycode_scancode_loop W scan_hex n
      (String.append (String.concat EmptyString (map hex_byte bs)) tail)
      i (Z.of_nat i) 1 scancode w
    = ([], Running (take i scancode ++ drop i bs ++ drop (length bs) scancode) w).
Proof.
  induction n as [|n IH]; intros i scancode Hn Hlen.
  - cbn. rewrite Nat.add_0_r in Hn. subst i.
    rewrite drop_all. cbn [app]. now rewrite take_drop.
  - cbn [set_keycode_scancode_loop].
    destruct (bs !! i) as [b|] eqn:Hb;
      [| apply lookup_ge_None_1 in Hb; lia].
    rewrite (scan_hex_at bs tail i b Hb), byte_of_N_to_N, Nat2Z.id.
    replace (Z.of_nat i + 1)%Z with (Z.of_nat (S i)) by lia.
    rewrite IH by (rewrite ?length_insert; lia).
    f_equal. f_equal.
    rewrite (drop_S _ _ _ Hb), drop_insert_lt by lia.
    rewrite (take_S_r (<[i:=b]> scancode) i b)
      by (apply list_lookup_insert_eq; lia).
    rewrite take_insert_ge by lia. now rewrite <- app_assoc.
Qed.

Lemma scancode_loop_backward (bs : list byte) (tail : string) (w : W) (n : nat) :
  forall (i : nat) (scancode : list byte),
    (i + n)%nat = length bs ->
    (n <= length scancode)%nat ->
    set_keycode_scancode_loop W scan_hex n
      (String.append (String.concat EmptyString (map hex_byte bs)) tail)
      i (Z.of_nat n - 1) (-1) scancode w
    = ([], Running (reverse (drop i bs) ++ drop n scancode) w).
Proof.
  induction n as [|n IH]; intros i scancode Hn Hlen.
  - cbn. rewrite Nat.add_0_r in Hn. subst i. now rewrite drop_all.
  - cbn [set_keycode_scancode_loop].
    destruct (bs !! i) as [b|] eqn:Hb;
      [| apply lookup_ge_None_1 in Hb; lia].
    rewrite (scan_hex_at bs tail i b Hb), byte_of_N_to_N.
    replace (Z.to_nat (Z.of_nat (S n) - 1)) with n by lia.
    replace (Z.of_nat (S n) - 1 + -1)%Z with (Z.of_nat n - 1)%Z by lia.
    rewrite IH by (rewrite ?length_insert; lia).
    f_equal. f_equal.
    rewrite (drop_S _ _ _ Hb), reverse_cons, <- app_assoc. f_equal.
    destruct (scancode !! n) as [x|] eqn:Hx;
      [| apply lookup_ge_None_1 in Hx; lia].
    rewrite (drop_S (<[n:=b]> scancode) b n)
      by (apply list_lookup_insert_eq; lia).
    cbn [app]. f_equal. now rewrite drop_insert_lt by lia.
Qed.

End Parse.

Lemma scancode_to_string_all (o : byte_order) (bytes : list byte) :
  scancode_to_string o EmptyString bytes (length bytes)
  = String.concat EmptyString
      (map hex_byte match o with
                    | LittleEndian => reverse bytes
                    | BigEndian => bytes
                    end).
Proof.
  destruct bytes as [|b bs].
  - now destruct o.
  - cbn [length]. unfold scancode_to_string.
    rewrite take_ge by (cbn [length]; lia). reflexivity.
Qed.

(** X13: what the dump shows, [-s] takes back.  For the scancode column
    of [n <= 32] bytes followed by [=] and a key that resolves, and no
    index prefix read from it, [set_keycode] builds a request by scancode
    with length [n], these [n] bytes at the head of the scancode field
    and the key's code; on either byte order, as long as [sscanf] reads
    two digits written by ["%02x"] back with ["%02x%n"]. *)
Theorem set_keycode_request_of_dump (o : byte_order) (W : Type)
    (key_names : list (N * string))
    (scan_index scan_hex scan_int : string -> option (N * nat))
    (ke0 : input_keymap_entry) (bytes : list byte) (name : string)
    (code : N) (w : W) :
  (forall (b : byte) (rest : string),
     scan_hex (String.append (hex_byte b) rest) = Some (Byte.to_N b, 2%nat)) ->
  (length bytes <= 32)%nat ->
  length (ke_scancode ke0) = 32%nat ->
  (forall v off,
     scan_index (String.append
                   (scancode_to_string o EmptyString bytes (length bytes))
                   (String "=" name)) = Some (v, off) -> off = 0%nat) ->
  get_key_by_name W key_names scan_int name w = ([], Running code w) ->
  exists ke,
    set_keycode_request o W key_names scan_index scan_hex scan_int ke0
      (String.append (scancode_to_string o EmptyString bytes (length bytes))
                     (String "=" name)) w
    = ([], Running ke w) /\
    by_index ke = false /\
    ke_len ke = N.of_nat (length bytes) /\
    take (length bytes) (ke_scancode ke) = bytes /\
    drop (length bytes) (ke_scancode ke) = drop (length bytes) (ke_scancode ke0) /\
    ke_keycode ke = code.
Proof.
  intros Hhex Hn Hsc Hidx Hname.
  rewrite scancode_to_string_all in *.
  set (shown := match o with LittleEndian => reverse bytes | BigEndian => bytes end)
    in *.
  assert (length shown = length bytes) as Hlen
    by (unfold shown; destruct o; [apply length_reverse | reflexivity]).
  set (def := String.append (String.concat EmptyString (map hex_byte shown))
                            (String "=" name)) in *.
  unfold set_keycode_request.
  assert (exists ke1, set_keycode_locator scan_index ke0 def = (ke1, def) /\
                      by_index ke1 = false /\
                      ke_scancode ke1 = ke_scancode ke0) as (ke1 & -> & Hb1 & Hsc1).
  { unfold set_keycode_locator.
    destruct (scan_index def) as [[v off]|] eqn:E.
    - rewrite (Hidx v off eq_refl). cbn [Nat.eqb negb]. eexists. repeat split.
    - eexists. repeat split. }
  unfold def at 1. rewrite strchr_hex, Hlen.
  destruct (Nat.ltb_spec 64 (2 * length bytes)) as [?|_]; [lia |].
  replace ((2 * length bytes) mod 2)%nat with 0%nat
    by (rewrite Nat.mul_comm, Nat.Div0.mod_mul; reflexivity).
  cbn [Nat.eqb negb orb].
  replace (2 * length bytes / 2)%nat with (length bytes)
    by (rewrite Nat.mul_comm, Nat.div_mul; [reflexivity | discriminate]).
  cbn [ke_len set_ke_len ke_scancode]. rewrite Nat2N.id.
  assert (string_drop (S (2 * length bytes)) def = name) as ->.
  { unfold def. rewrite <- Hlen. apply string_drop_past_hex. }
  assert (match o with
          | LittleEndian =>
              set_keycode_scancode_loop W scan_hex (length bytes) def 0
                (Z.of_nat (length bytes) - 1) (-1) (ke_scancode ke1)
          | BigEndian =>
              set_keycode_scancode_loop W scan_hex (length bytes) def 0 0 1
                (ke_scancode ke1)
          end w
          = ([], Running (bytes ++ drop (length bytes) (ke_scancode ke1)) w)) as Hloop.
  { unfold def, shown in *. destruct o.
    - rewrite <- Hlen.
      rewrite (scancode_loop_backward W scan_hex Hhex (reverse bytes) _ w
                 (length (reverse bytes)) 0) by (rewrite ?Hlen, ?Hsc1, ?Hsc; lia).
      now rewrite drop_0, reverse_involutive.
    - change 0%Z with (Z.of_nat 0).
      rewrite (scancode_loop_forward W scan_hex Hhex bytes _ w (length bytes) 0)
        by (rewrite ?Hsc1, ?Hsc; lia).
      now rewrite take_0, drop_0. }
  unfold bind at 1. rewrite Hloop.
  unfold bind at 1. rewrite Hname. cbn [app]. unfold ret.
  eexists. split; [reflexivity |].
  split; [exact Hb1 |]. split; [reflexivity |].
  cbn [ke_scancode set_ke_keycode set_ke_scancode ke_keycode].
  split; [now rewrite take_app_length |].
  split; [| reflexivity].
  rewrite drop_app_length. now rewrite Hsc1.
Qed.

Lemma scan_two_hex_digits (b : byte) (rest : string) :
  scan_two_hex (String.append (hex_byte b) rest) = Some (Byte.to_N b, 2%nat).
Proof. destruct b; reflexivity. Qed.

Lemma set_keycode_request_of_dump_witness :
  (forall (b : byte) (rest : string),
     scan_two_hex (String.append (hex_byte b) rest) = Some (Byte.to_N b, 2%nat)) /\
  (length [x81; x00; x01; x00] <= 32)%nat /\
  length (ke_scancode (request_by_index 0 [] 0)) = 32%nat /\
  (forall v off,
     scan_nothing
       (String.append
          (scancode_to_string LittleEndian EmptyString [x81; x00; x01; x00]
             (length [x81; x00; x01; x00]))
          (String "=" "A")) = Some (v, off) -> off = 0%nat) /\
  get_key_by_name unit example_key_names scan_nothing "A" tt
    = ([], Running 30 tt) /\
  exists ke,
    set_keycode_request LittleEndian unit example_key_names scan_nothing
      scan_two_hex scan_nothing (request_by_index 0 [] 0)
      (String.append
         (scancode_to_string LittleEndian EmptyString [x81; x00; x01; x00]
            (length [x81; x00; x01; x00]))
         (String "=" "A")) tt
    = ([], Running ke tt) /\
    by_index ke = false /\
    ke_len ke = N.of_nat (length [x81; x00; x01; x00]) /\
    take (length [x81; x00; x01; x00]) (ke_scancode ke) = [x81; x00; x01; x00] /\
    drop (length [x81; x00; x01; x00]) (ke_scancode ke)
      = drop (length [x81; x00; x01; x00]) (ke_scancode (request_by_index 0 [] 0)) /\
    ke_keycode ke = 30.
Proof.
  split; [exact scan_two_hex_digits |]. split; [cbn; lia |].
  split; [reflexivity |]. split; [discriminate |]. split; [reflexivity |].
  apply (set_keycode_request_of_dump LittleEndian unit example_key_names
           scan_nothing scan_two_hex scan_nothing (request_by_index 0 [] 0)
           [x81; x00; x01; x00] "A" 30 tt);
    [exact scan_two_hex_digits | cbn; lia | reflexivity | discriminate
    | reflexivity].
Defined.

Example dump_shows_00010081 :
  scancode_to_string LittleEndian EmptyString [x81; x00; x01; x00] 4
  = "00010081"%string.
Proof. reflexivity. Qed.

(** X12: a definition in which, after the index prefix, no [=] follows,
    or the [=] comes after more than 64 characters or after an odd
    number of them, is refused before anything is sent to the device:
    one line on standard error, exit status 1. *)
Theorem set_keycode_rejects_malformed (o : byte_order) (W : Type)
    (key_names : list (N * string))
    (scan_index scan_hex scan_int : string -> option (N * nat))
    (ioctl_set : Z -> input_keymap_entry -> prog W Z)
    (ke0 : input_keymap_entry) (dev : Z) (def : string) (w : W) :
  (0 <= dev)%Z ->
  strchr (set_keycode_locator scan_index ke0 def).2 "=" = None \/
  (exists sep,
     strchr (set_keycode_locator scan_index ke0 def).2 "=" = Some sep /\
     ((64 < sep)%nat \/ (sep mod 2 <> 0)%nat)) ->
  set_keycode o W key_names scan_index scan_hex scan_int ioctl_set ke0 dev def w
  = ([Print Stderr
        (String.append "Invalid definition: "
           (String.append (set_keycode_locator scan_index ke0 def).2 nl))],
     Exited 1%Z).
Proof.
  intros Hdev Hbad. unfold set_keycode, check_device.
  destruct (Z.ltb_spec dev 0) as [?|_]; [lia |].
  unfold bind at 1. cbn [ret app]. unfold bind at 1.
  unfold set_keycode_request.
  destruct (set_keycode_locator scan_index ke0 def) as [ke1 def1].
  cbn [snd] in *.
  destruct Hbad as [-> | (sep & -> & Hsep)]; [reflexivity |].
  destruct Hsep as [H|H].
  - destruct (Nat.ltb_spec 64 sep) as [_|?]; [reflexivity | lia].
  - destruct (Nat.eqb_spec (sep mod 2) 0) as [?|_]; [lia |].
    now rewrite orb_true_r.
Qed.

Lemma set_keycode_rejects_malformed_witness :
  (0 <= 3)%Z /\
  (strchr (set_keycode_locator scan_nothing (request_by_index 0 [] 0)
             "01008=A").2 "=" = None \/
   (exists sep,
      strchr (set_keycode_locator scan_nothing (request_by_index 0 [] 0)
                "01008=A").2 "=" = Some sep /\
      ((64 < sep)%nat \/ (sep mod 2 <> 0)%nat))) /\
  set_keycode LittleEndian input_dev example_key_names scan_nothing
    scan_two_hex scan_nothing example_ioctl_set (request_by_index 0 [] 0)
    3 "01008=A" example_dev
  = ([Print Stderr
        (String.append "Invalid definition: "
           (String.append
              (set_keycode_locator scan_nothing (request_by_index 0 [] 0)
                 "01008=A").2 nl))],
     Exited 1%Z).
Proof.
  split; [lia |].
  split; [right; exists 5%nat; split; [reflexivity | right; discriminate] |].
  apply (set_keycode_rejects_malformed LittleEndian input_dev example_key_names
           scan_nothing scan_two_hex scan_nothing example_ioctl_set
           (request_by_index 0 [] 0) 3 "01008=A" example_dev);
    [lia | right; exists 5%nat; split; [reflexivity | right; discriminate]].
Defined.

(** ** Key names, to and fro *)

Lemma get_key_by_code_elem (names : list (N * string)) (code : N) (name : string) :
  get_key_by_code names code = Some name -> (code, name) ∈ names.
Proof.
  unfold get_key_by_code. induction names as [|[c n] names IH]; cbn; [done |].
  destruct (N.eqb_spec c code) as [->|_].
  - intros [= ->]. left.
  - intros H. right. now apply IH.
Qed.

Lemma get_key_by_name_loop_of_code (names : list (N * string)) (code : N)
    (name : string) :
  NoDup (names.*2) ->
  get_key_by_code names code = Some name ->
  get_key_by_name_loop names name = Some code.
Proof.
  unfold get_key_by_code. induction names as [|[c n] names IH]; cbn; [done |].
  intros Hnd. apply NoDup_cons in Hnd as [Hn Hnd].
  destruct (N.eqb_spec c code) as [->|Hc].
  - intros [= ->]. now rewrite String.eqb_refl.
  - intros H. destruct (String.eqb_spec n name) as [->|_].
    + exfalso. apply Hn. apply get_key_by_code_elem in H.
      apply list_elem_of_fmap. exists (code, name). done.
    + now apply IH.
Qed.

(** X14: with a table of distinct names, the name the dump shows for a
    key code is taken by [-s] for that very code, without a word on
    standard error and without [sscanf] being consulted. *)
Theorem key_name_round_trip (W : Type) (key_names : list (N * string))
    (scan_int : string -> option (N * nat)) (code : N) (name : string) (w : W) :
  NoDup (key_names.*2) ->
  get_key_by_code key_names code = Some name ->
  get_key_by_name W key_names scan_int name w = ([], Running code w).
Proof.
  intros Hnd H. unfold get_key_by_name.
  now rewrite (get_key_by_name_loop_of_code _ _ _ Hnd H).
Qed.

Lemma example_key_names_distinct : NoDup (example_key_names.*2).
Proof.
  cbn. apply NoDup_cons. split.
  - intros H. apply list_elem_of_singleton in H. discriminate.
  - apply NoDup_singleton.
Qed.

Lemma key_name_round_trip_witness :
  NoDup (example_key_names.*2) /\
  get_key_by_code example_key_names 116 = Some "POWER"%string /\
  get_key_by_name unit example_key_names scan_nothing "POWER" tt
    = ([], Running 116 tt).
Proof.
  split; [exact example_key_names_distinct |]. split; [reflexivity |].
  apply (key_name_round_trip unit example_key_names scan_nothing 116 "POWER" tt);
    [exact example_key_names_distinct | reflexivity].
Defined.

(** ** Actions need a device *)

Section BeforeDevice.

Variable o : byte_order.
Variable W : Type.
Variable sys_open : string -> prog W Z.
Variable sys_close : Z -> prog W unit.
Variable ioctl_get : Z -> input_keymap_entry -> prog W ioctl_result.
Variable ioctl_set : Z -> input_keymap_entry -> prog W Z.
Variable key_names : list (N * string).
Variables scan_index scan_hex scan_int : string -> option (N * nat).
Variables ke_p ke_s : input_keymap_entry.
Variable scancode0 : string.

Lemma main_loop_before_device (hs rest : list (ascii * string))
    (opt : ascii) (optarg : string) (act : bool) (w : W) :
  Forall (fun p => p.1 = "h"%char) hs ->
  opt = "p"%char \/ opt = "s"%char ->
  main_loop o W sys_open sys_close ioctl_get key_names
            (set_keycode o W key_names scan_index scan_hex scan_int ioctl_set ke_s)
            ke_p scancode0 (hs ++ (opt, optarg) :: rest) (-1)%Z act w
  = (flat_map (fun _ => [Print Stdout usage_text; Flush Stdout]) hs
     ++ [Print Stderr (String.append "No device opened" nl)],
     Exited 1%Z).
Proof.
  intros Hhs Hopt. induction Hhs as [|[c arg] hs Hc _ IH].
  - destruct Hopt as [-> | ->]; reflexivity.
  - cbn in Hc. subst c. cbn [app main_loop flat_map].
    change (Ascii.eqb "h" "d") with false. change (Ascii.eqb "h" "p") with false.
    change (Ascii.eqb "h" "s") with false. change (Ascii.eqb "h" "h") with true.
    cbv iota. unfold bind at 1. unfold usage. cbn [Z.eqb].
    unfold bind at 1 2, emit, ret. cbn [app]. rewrite IH. reflexivity.
Qed.

(** X15: a [-p] or [-s] that comes before any [-d], with at most [-h]
    options in front of it, ends the run with "No device opened" and
    status 1: nothing is read from or sent to a device, and no option
    behind it is looked at. *)
Theorem main_action_before_device (hs rest : list (ascii * string))
    (opt : ascii) (optarg : string) (operands : bool) (w : W) :
  Forall (fun p => p.1 = "h"%char) hs ->
  opt = "p"%char \/ opt = "s"%char ->
  main o W sys_open sys_close ioctl_get key_names
       (set_keycode o W key_names scan_index scan_hex scan_int ioctl_set ke_s)
       ke_p scancode0
       {| cl_options := hs ++ (opt, optarg) :: rest;
          cl_operands_left := operands |} w
  = (flat_map (fun _ => [Print Stdout usage_text; Flush Stdout]) hs
     ++ [Print Stderr (String.append "No device opened" nl)],
     Exited 1%Z).
Proof.
  intros Hhs Hopt. unfold main. cbn [cl_options]. unfold bind at 1.
  now rewrite main_loop_before_device.
Qed.

End BeforeDevice.

(** ** The properties above on the example client *)



Lemma main_returns_zero_only_after_action_witness :
  main LittleEndian input_dev example_open example_close
    (engine_ioctl_get LittleEndian linux_le) example_key_names
    (fun _ _ => ret tt) (request_by_index 0 [] 0) EmptyString
    {| cl_options := [("d"%char, "/dev/input/event8"%string);
                      ("p"%char, EmptyString)];
       cl_operands_left := false |} example_dev
  = ([Print Stdout (String.append "index scancode    keycode name" nl);
      Row 0 "00001122" 5 "?"; Row 1 "00003344" 5 "?"; Row 2 "00005566" 0 "?";
      Flush Stdout],
     Running 0%Z example_dev) /\
  (0%Z = 0%Z /\
   false = false /\
   exists opt optarg,
     (opt, optarg) ∈ [("d"%char, "/dev/input/event8"%string);
                      ("p"%char, EmptyString)] /\
     (opt = "p"%char \/ opt = "s"%char)).
Proof.
  split; [reflexivity |].
  apply (main_returns_zero_only_after_action LittleEndian input_dev example_open
           example_close (engine_ioctl_get LittleEndian linux_le)
           example_key_names (fun _ _ => ret tt) (request_by_index 0 [] 0)
           EmptyString
           {| cl_options := [("d"%char, "/dev/input/event8"%string);
                             ("p"%char, EmptyString)];
              cl_operands_left := false |}
           example_dev example_dev
           [Print Stdout (String.append "index scancode    keycode name" nl);
            Row 0 "00001122" 5 "?"; Row 1 "00003344" 5 "?";
            Row 2 "00005566" 0 "?"; Flush Stdout]
           0%Z).
  reflexivity.
Defined.

Lemma main_action_before_device_witness :
  Forall (fun p : ascii * string => p.1 = "h"%char) [("h"%char, EmptyString)] /\
  ("s"%char = "p"%char \/ "s"%char = "s"%char) /\
  main LittleEndian input_dev example_open example_close
    (engine_ioctl_get LittleEndian linux_le) example_key_names
    (set_keycode LittleEndian input_dev example_key_names scan_nothing
       scan_two_hex scan_nothing example_ioctl_set (request_by_index 0 [] 0))
    (request_by_index 0 [] 0) EmptyString
    {| cl_options := [("h"%char, EmptyString)]
                     ++ ("s"%char, "00010081=A"%string)
                        :: [("d"%char, "/dev/input/event8"%string)];
       cl_operands_left := false |} example_dev
  = (flat_map (fun _ => [Print Stdout usage_text; Flush Stdout])
       [("h"%char, EmptyString)]
     ++ [Print Stderr (String.append "No device opened" nl)],
     Exited 1%Z).
Proof.
  split; [repeat constructor |]. split; [right; reflexivity |].
  apply (main_action_before_device LittleEndian input_dev example_open
           example_close (engine_ioctl_get LittleEndian linux_le)
           example_ioctl_set example_key_names scan_nothing scan_two_hex
           scan_nothing (request_by_index 0 [] 0) (request_by_index 0 [] 0)
           EmptyString [("h"%char, EmptyString)]
           [("d"%char, "/dev/input/event8"%string)] "s" "00010081=A" false
           example_dev);
    [repeat constructor | right; reflexivity].
Defined.

(** ** A set by scancode *)



(** On a big-endian machine a locator of one byte is read as its value
    but stored in the most significant byte of the code. *)
Example big_endian_set_by_scancode_moves_code :
  (sparse_keymap_setkeycode_all BigEndian (linux_scancode_to_scalar BigEndian)
     switch_dev (request_by_scancode [x20] 7) 77).1.2
  = {| dev_keycode :=
         Some [ mk_key_entry KE_SW 0x20000000 7;
                mk_key_entry KE_END 0 0 ];
       dev_keybit := 0 |}.
Proof. reflexivity. Qed.
